(** * tsh: a shallow embedding of the teaching shell's pipeline engine

    The development follows [src/src/tsh.cpp] (the implemented half of the
    file, lines 1-346) and the class declaration in [tsh.h]:

    - C strings are character blocks ([list ascii]) ending in a NUL; a
      [char *] is a block together with an offset, and the C library
      routines the shell calls ([strspn], [strcspn], [strtok], [strdup],
      [strcmp]) are written out over that representation following ISO C
      7.24 and the glibc sources;
    - [Process] is the class of [tsh.h]; members the constructor leaves
      unassigned hold an [Indeterminate] value;
    - [parse_input] and [isQuit] thread the tokenised block explicitly and
      report a null-pointer dereference as a [Fault];
    - [run_commands] runs against a small model of the kernel's per-process
      descriptor table, with an oracle for what [fork], [pipe] and [execvp]
      answer and a log of the system calls made by the process being
      followed. *)

From Stdlib Require Import ZArith Ascii String Bool Lia.
From stdpp Require Import list strings.

Local Open Scope Z_scope.
Local Open Scope nat_scope.

(* ===================================================================== *)
(** * C strings *)
(* ===================================================================== *)

Definition NUL : ascii := Ascii.zero.

Definition is_nul (c : ascii) : bool := Ascii.eqb c NUL.

(** A heap or static block of characters.  Every block the shell builds
    ends in [NUL]; a pointer into a block is an offset, and the characters
    seen from offset [i] are [drop i b]. *)
Abbreviation cbuf := (list ascii).

(** [b[i]]; the scans below stop at the terminator, so the default is only
    ever returned for the position just past a block that lacks one. *)
Definition char_at (b : cbuf) (i : nat) : ascii := default NUL (b !! i).

(** A string literal as the block the compiler emits for it. *)
Definition lit (s : string) : cbuf := list_ascii_of_string s ++ [NUL].

(** [c] occurs in the set of characters [set] (the body of a literal). *)
Definition in_set (c : ascii) (set : list ascii) : bool :=
  existsb (Ascii.eqb c) set.

(** The characters of the C string that starts at the head of [s]. *)
Fixpoint cstr (s : list ascii) : list ascii :=
  match s with
  | [] => []
  | c :: s' => if is_nul c then [] else c :: cstr s'
  end.

(** [strspn(s, accept)]: length of the leading run of characters of
    [accept]. *)
Fixpoint strspn (s accept : list ascii) : nat :=
  match s with
  | [] => 0
  | c :: s' =>
      if negb (is_nul c) && in_set c accept then S (strspn s' accept) else 0
  end.

(** [strcspn(s, reject)]: length of the leading run of characters that are
    neither in [reject] nor the terminator. *)
Fixpoint strcspn (s reject : list ascii) : nat :=
  match s with
  | [] => 0
  | c :: s' =>
      if is_nul c || in_set c reject then 0 else S (strcspn s' reject)
  end.

(** [strdup(s)]: a fresh block holding a copy of the string and its
    terminator. *)
Definition strdup (s : list ascii) : cbuf := cstr s ++ [NUL].

Definition code (c : ascii) : Z := Z.of_nat (nat_of_ascii c).

(** [strcmp(a, b)]: difference of the first pair of characters that differ
    (as unsigned chars), 0 when both strings end together. *)
Fixpoint strcmp (a b : list ascii) : Z :=
  match a, b with
  | [], [] => 0%Z
  | [], y :: _ => (0 - code y)%Z
  | x :: _, [] => code x
  | x :: a', y :: b' =>
      if Ascii.eqb x y
      then (if is_nul x then 0%Z else strcmp a' b')
      else (code x - code y)%Z
  end.

(** [strtok(s, delim)] over the block [b], with [olds] the library's saved
    position.  [s = None] is the call [strtok(NULL, delim)].  The result is
    the token's offset ([None] for a null pointer), the block (one
    delimiter may have been overwritten by a NUL) and the new saved
    position. *)
Definition strtok (s : option nat) (delim : list ascii) (b : cbuf) (olds : nat)
  : option nat * cbuf * nat :=
  let s0 := match s with Some p => p | None => olds end in
  if is_nul (char_at b s0) then (None, b, s0) else
  let s1 := s0 + strspn (drop s0 b) delim in
  if is_nul (char_at b s1) then (None, b, s1) else
  let e := s1 + strcspn (drop s1 b) delim in
  if is_nul (char_at b e) then (Some s1, b, e)
  else (Some s1, <[e := NUL]> b, S e).

(* ===================================================================== *)
(** * Outcomes of fallible code *)
(* ===================================================================== *)

Inductive fault := NullDereference.

Inductive result (A : Type) :=
| Ok (a : A)
| Fault (f : fault).
Arguments Ok {A} a.
Arguments Fault {A} f.

(* ===================================================================== *)
(** * class Process *)
(* ===================================================================== *)

(** A member that has been declared but never assigned. *)
Inductive slot (A : Type) :=
| Indeterminate
| Stored (a : A).
Arguments Indeterminate {A}.
Arguments Stored {A} a.

(** [cmd] is a nullable pointer to an owned block; [cmdTokens] is the array
    [char *cmdTokens[25]], each entry a null pointer or a string. *)
Record Process := mkProcess {
  cmd : option cbuf;
  cmdTokens : slot (list (option (list ascii)));
  pipe_in : bool;
  pipe_out : bool;
  pipe_fd : slot (Z * Z)
}.

(** Conversion of an [int] argument to a [bool] member. *)
Definition int_to_bool (z : Z) : bool := negb (z =? 0)%Z.

(** [Process::Process(char *_cmd, int _pipe_in, int _pipe_out)]. *)
Definition Process_new (_cmd : list ascii) (_pipe_in _pipe_out : Z) : Process :=
  {| cmd := Some (strdup _cmd);
     cmdTokens := Indeterminate;
     pipe_in := int_to_bool _pipe_in;
     pipe_out := int_to_bool _pipe_out;
     pipe_fd := Indeterminate |}.

(** [void Process::split_string() {}]: the body is empty. *)
Definition split_string (p : Process) : Process := p.

Definition set_cmd (p : Process) (b : cbuf) : Process :=
  {| cmd := Some b;
     cmdTokens := cmdTokens p;
     pipe_in := pipe_in p;
     pipe_out := pipe_out p;
     pipe_fd := pipe_fd p |}.

(* ===================================================================== *)
(** * parse_input *)
(* ===================================================================== *)

Definition delimiters : list ascii := list_ascii_of_string "|;".

Definition is_some {A} (o : option A) : bool :=
  match o with Some _ => true | None => false end.

(** The [while (token != NULL)] loop.  [b] is the block [cmd_copy], [olds]
    the saved position of [strtok], [token] the loop variable and
    [process_list] the list passed by reference, whose contents are
    returned whatever the outcome.  [None] means the iteration bound
    [fuel] was used up before the loop ended. *)
Fixpoint parse_loop (fuel : nat) (b : cbuf) (olds : nat) (token : option nat)
    (pipe_in_val : Z) (process_list : list Process)
  : option (result unit * list Process) :=
  match token with
  | None => Some (Ok tt, process_list)
  | Some tok =>
    match fuel with
    | O => None
    | S fuel' =>
      let '(next, b1, olds1) := strtok None delimiters b olds in
      let '(rest, b2, olds2) := strtok None [] b1 olds1 in
      match rest with
      | None => Some (Fault NullDereference, process_list)
      | Some r =>
        let pipe_out_val :=
          if Ascii.eqb (char_at b2 r) "|"%char && is_some next
          then 1%Z else 0%Z in
        let newProc := Process_new (drop tok b2) pipe_in_val pipe_out_val in
        parse_loop fuel' b2 olds2 next pipe_out_val (process_list ++ [newProc])
      end
    end
  end.

(** How one pass of the loop ends: it dereferences the null pointer, the
    list being what it was; or it gets to the end of the body, and the
    next test of [token != NULL] finds the block, the saved position,
    [token], [pipe_in_val] and the list as given. *)
Inductive pass_result :=
| PassFault (process_list : list Process)
| PassNext (b : cbuf) (olds : nat) (token : option nat) (pipe_in_val : Z)
           (process_list : list Process).

(** The body of the loop, lines 154 to 166: the two calls of [strtok], the
    new [Process] with the [pipe_in_val] of this pass and the
    [pipe_out_val] just read, [push_back], then [token = next] and
    [pipe_in_val = pipe_out_val]. *)
Definition parse_pass (b : cbuf) (olds tok : nat) (pipe_in_val : Z)
    (process_list : list Process) : pass_result :=
  let '(next, b1, olds1) := strtok None delimiters b olds in
  let '(rest, b2, olds2) := strtok None [] b1 olds1 in
  match rest with
  | None => PassFault process_list
  | Some r =>
    let pipe_out_val :=
      if Ascii.eqb (char_at b2 r) "|"%char && is_some next
      then 1%Z else 0%Z in
    let newProc := Process_new (drop tok b2) pipe_in_val pipe_out_val in
    let process_list := process_list ++ [newProc] in
    let token := next in
    let pipe_in_val := pipe_out_val in
    PassNext b2 olds2 token pipe_in_val process_list
  end.


(** [void parse_input(char *cmd, list<Process *> &process_list)]; [cmd]
    is the string seen from the pointer.  Every pass of the loop consumes
    at least one character of [cmd_copy], whose length bounds the number of
    passes. *)
Definition parse_input (cmd : list ascii) (process_list : list Process)
  : option (result unit * list Process) :=
  let pipe_in_val := 0%Z in
  let cmd_copy := strdup cmd in
  let '(token, b, olds) := strtok (Some 0) delimiters cmd_copy 0 in
  match parse_loop (length cmd_copy) b olds token pipe_in_val process_list with
  | Some (Ok tt, pl) => Some (Ok tt, map split_string pl)
  | r => r
  end.

(** What [run] does with a line typed by the user: the list is empty on
    entry. *)
Definition parse_line (line : string) : option (result unit * list Process) :=
  parse_input (lit line) [].

(* ===================================================================== *)
(** * isQuit *)
(* ===================================================================== *)

(** [bool isQuit(Process *p)].  The second component is the object [p]
    points to when the call ends (or faults). *)
Definition isQuit (p : option Process) : result bool * option Process :=
  match p with
  | None => (Ok false, None)
  | Some pr =>
    match cmd pr with
    | None => (Ok false, Some pr)
    | Some b =>
      let cpy_cmd := strdup b in
      let '(tok, b', _) := strtok (Some 0) [] b 0 in
      match tok with
      | None => (Fault NullDereference, Some (set_cmd pr b'))
      | Some t =>
          (Ok (strcmp (drop t b') (lit "quit") =? 0)%Z, Some (set_cmd pr b'))
      end
    end
  end.

(* ===================================================================== *)
(** * The process's view of the kernel *)
(* ===================================================================== *)

(** What an open descriptor refers to. *)
Inductive fobj :=
| Tty
| PipeRd (id : nat)
| PipeWr (id : nat).

(** The descriptor table: entry [n] is [Some o] when descriptor [n] is
    open. *)
Abbreviation fdtable := (list (option fobj)).

Inductive event :=
| EvFork (ret : Z)
| EvPipe (id rd wr : nat)
| EvPipeFail
| EvDup2 (oldfd newfd : Z)
| EvClose (fd : Z)
| EvWait
| EvExit (status : Z)
| EvExecvp.

(** [fds] is the table of the process being followed, [forks] and [pipes]
    count the calls made so far, [trace] lists its system calls, oldest
    first. *)
Record world := mkWorld {
  fds : fdtable;
  forks : nat;
  pipes : nat;
  trace : list event
}.

(** What the kernel answers: the value the [n]-th [fork] returns in the
    process being followed, whether the [n]-th [pipe] succeeds, and
    whether [execvp] replaces the program ([false]: it comes back with
    -1). *)
Record oracle := mkOracle {
  fork_ret : nat -> Z;
  pipe_ok : nat -> bool;
  exec_ok : bool
}.

(** Install [o] in the lowest free entry. *)
Fixpoint alloc_fd (o : fobj) (t : fdtable) : nat * fdtable :=
  match t with
  | [] => (0, [Some o])
  | None :: t' => (0, Some o :: t')
  | Some x :: t' =>
      let '(n, t'') := alloc_fd o t' in (S n, Some x :: t'')
  end.

(** Store [o] at entry [n], growing the table when needed. *)
Definition set_fd (n : nat) (o : fobj) (t : fdtable) : fdtable :=
  if n <? length t then <[n := Some o]> t
  else t ++ replicate (n - length t) None ++ [Some o].

Definition open_at (t : fdtable) (fd : Z) : option fobj :=
  if (fd <? 0)%Z then None else mjoin (t !! Z.to_nat fd).

Definition log (e : event) (w : world) : world :=
  mkWorld (fds w) (forks w) (pipes w) (trace w ++ [e]).

Definition with_fds (t : fdtable) (w : world) : world :=
  mkWorld t (forks w) (pipes w) (trace w).

(** [fork()]. *)
Definition sys_fork (env : oracle) (w : world) : Z * world :=
  let pid := fork_ret env (forks w) in
  (pid, mkWorld (fds w) (S (forks w)) (pipes w) (trace w ++ [EvFork pid])).

(** [pipe(fd)]: on success the two lowest free descriptors, read end
    first. *)
Definition sys_pipe (env : oracle) (w : world) : option (Z * Z) * world :=
  let id := pipes w in
  if pipe_ok env id then
    let '(rd, t1) := alloc_fd (PipeRd id) (fds w) in
    let '(wr, t2) := alloc_fd (PipeWr id) t1 in
    (Some (Z.of_nat rd, Z.of_nat wr),
     mkWorld t2 (forks w) (S id) (trace w ++ [EvPipe id rd wr]))
  else (None, mkWorld (fds w) (forks w) (S id) (trace w ++ [EvPipeFail])).

(** [close(fd)]: a descriptor that is not open is left alone (EBADF). *)
Definition sys_close (fd : Z) (w : world) : world :=
  let t := if (fd <? 0)%Z then fds w else <[Z.to_nat fd := None]> (fds w) in
  log (EvClose fd) (with_fds t w).

(** [dup2(oldfd, newfd)]: [newfd] now refers to what [oldfd] does; nothing
    happens when [oldfd] is not open or [newfd] is negative (EBADF). *)
Definition sys_dup2 (oldfd newfd : Z) (w : world) : world :=
  let t :=
    match open_at (fds w) oldfd with
    | Some o =>
        if (newfd <? 0)%Z then fds w else set_fd (Z.to_nat newfd) o (fds w)
    | None => fds w
    end in
  log (EvDup2 oldfd newfd) (with_fds t w).

(** [wait(&pid)]. *)
Definition sys_wait (w : world) : world := log EvWait w.

Definition STDIN_FILENO : Z := 0%Z.
Definition STDOUT_FILENO : Z := 1%Z.

(** The descriptor table the shell starts with: terminal on 0, 1 and 2. *)
Definition shell_start : world :=
  mkWorld [Some Tty; Some Tty; Some Tty] 0 0 [].

(* ===================================================================== *)
(** * run_commands *)
(* ===================================================================== *)

(** How the call ends in the process being followed: it returns
    [is_quit]; or the process ends through [exit(status)]; or, in a child,
    [execvp(p->cmdTokens[0], p->cmdTokens)] replaces the program, so that
    the call never comes back; or it faults. *)
Inductive outcome :=
| Returned (is_quit : bool)
| Exited (status : Z)
| ChildExec (argv : slot (list (option (list ascii))))
| Faulted (f : fault).

(** The body of [for (Process *p : command_list)].  [prev_fd] is the local
    array [int prev_fd[2]], which no statement assigns: the pair stands for
    whatever the stack holds. *)
Fixpoint run_loop (env : oracle) (prev_fd : Z * Z) (prev : option Process)
    (command_list : list Process) (w : world) : outcome * world :=
  match command_list with
  | [] => (Returned false, w)
  | p0 :: rest =>
    match isQuit (Some p0) with
    | (Fault f, _) => (Faulted f, w)
    | (Ok true, _) => (Returned true, w)
    | (Ok false, after) =>
      let p := default p0 after in
      let '(pid, w) := sys_fork env w in
      if (pid =? -1)%Z then (Exited 1, log (EvExit 1) w) else
      match sys_pipe env w with
      | (None, w) => (Exited 1, log (EvExit 1) w)
      | (Some fd, w) =>
        if (pid =? 0)%Z then
          let w := if pipe_in p then sys_dup2 (snd prev_fd) STDIN_FILENO w
                   else w in
          let w := if is_some prev
                   then sys_close (snd prev_fd) (sys_close (fst prev_fd) w)
                   else w in
          let w := if pipe_out p then sys_dup2 (snd fd) STDOUT_FILENO w
                   else w in
          let w := sys_close (snd fd) (sys_close (fst fd) w) in
          let w := log EvExecvp w in
          if exec_ok env then (ChildExec (cmdTokens p), w)
          else (Exited 1, log (EvExit 1) w)
        else if (pid >? 0)%Z then
          let w := if is_some prev
                   then sys_close (snd prev_fd) (sys_close (fst prev_fd) w)
                   else w in
          let w := sys_wait w in
          run_loop env prev_fd (Some p) rest w
        else
          run_loop env prev_fd (Some p) rest w
      end
    end
  end.

(** [bool run_commands(list<Process *> &command_list)]. *)
Definition run_commands (env : oracle) (prev_fd : Z * Z)
    (command_list : list Process) (w : world) : outcome * world :=
  run_loop env prev_fd None command_list w.

(** The kernel as the shell itself sees it when nothing fails: each [fork]
    returns a child's pid, each [pipe] succeeds. *)
Definition parent_env : oracle :=
  mkOracle (fun n => Z.of_nat (100 + n)) (fun _ => true) true.

(** The kernel as the child forked for the [k]-th stage sees it: the
    earlier forks returned pids to its parent, the [k]-th returns 0, and
    [execvp] finds its program. *)
Definition child_env (k : nat) : oracle :=
  mkOracle (fun n => if n =? k then 0%Z else Z.of_nat (100 + n))
           (fun _ => true) true.

(* ===================================================================== *)
(** * What the specification asks for *)
(* ===================================================================== *)

(** The characters the C library's [isspace] accepts. *)
Definition is_space (c : ascii) : bool :=
  in_set c [" "; "009"; "010"; "011"; "012"; "013"]%char.

(** Section 4.2 of the specification: the command text split on runs of
    white space, leading and trailing white space discarded.  [cur] is the
    token being read. *)
Fixpoint spec_argv_from (cur s : list ascii) : list (list ascii) :=
  match s with
  | [] => match cur with [] => [] | _ => [cur] end
  | c :: s' =>
      if is_space c
      then match cur with
           | [] => spec_argv_from [] s'
           | _ => cur :: spec_argv_from [] s'
           end
      else spec_argv_from (cur ++ [c]) s'
  end.

Definition spec_argv (command : string) : list (list ascii) :=
  spec_argv_from [] (list_ascii_of_string command).

(** Section 4.4 of the specification: the first token of the stage equals
    the keyword, compared literally. *)
Definition spec_isTerminationRequest (command : string) : bool :=
  match spec_argv command with
  | first :: _ => bool_decide (first = list_ascii_of_string "quit")
  | [] => false
  end.

(** Section 4.2 of the specification: [cmdTokens] holds the tokens in
    order, followed by a null entry. *)
Definition argv_stored (p : Process) (tokens : list (list ascii)) : Prop :=
  exists arr tail,
    cmdTokens p = Stored arr /\ arr = map Some tokens ++ None :: tail.


(** The two flags of every stage, in order. *)
Definition flags (pl : list Process) : list (bool * bool) :=
  map (fun p => (pipe_in p, pipe_out p)) pl.

(** The flags of the stages in the list when [parse_input] stops. *)
Definition stage_flags (r : option (result unit * list Process))
  : option (list (bool * bool)) :=
  match r with
  | Some (_, pl) => Some (flags pl)
  | None => None
  end.

(** The line holds at least one character that is not a delimiter. *)
Definition has_command (cmd : list ascii) : bool :=
  existsb (fun c => negb (in_set c delimiters)) (cstr cmd).

(** The recursive form of [consistent_flags] the loop maintains: [pin] is
    what the next stage's [pipe_in] has to be. *)
Fixpoint chained (pin : bool) (pl : list Process) : Prop :=
  match pl with
  | [] => True
  | p :: pl' => pipe_in p = pin /\ chained (pipe_out p) pl'
  end.

Fixpoint final_out (pin : bool) (pl : list Process) : bool :=
  match pl with
  | [] => pin
  | p :: pl' => final_out (pipe_out p) pl'
  end.

(** The call [isQuit(p)] answers true. *)
Definition quits (p : Process) : bool :=
  match fst (isQuit (Some p)) with
  | Ok true => true
  | _ => false
  end.

(** The call [isQuit(p)] comes back. *)
Definition isQuit_returns (p : Process) : bool :=
  match fst (isQuit (Some p)) with
  | Ok _ => true
  | Fault _ => false
  end.

(** The stages in front of the first one [isQuit] accepts. *)
Fixpoint before_quit (l : list Process) : list Process :=
  match l with
  | [] => []
  | p :: l' => if quits p then [] else p :: before_quit l'
  end.

(** Open descriptors that are ends of a pipe created as the [since]-th
    pipe of the process or later. *)
Definition run_pipe_end (since : nat) (e : option fobj) : bool :=
  match e with
  | Some (PipeRd id) | Some (PipeWr id) => since <=? id
  | _ => false
  end.

Fixpoint open_pipe_ends (since : nat) (t : fdtable) : nat :=
  match t with
  | [] => 0
  | e :: t' => (if run_pipe_end since e then 1 else 0) + open_pipe_ends since t'
  end.

Definition is_close (e : event) : bool :=
  match e with EvClose _ => true | _ => false end.



(** A stage as the tests build it. *)
Definition stage (command : string) (_pipe_in _pipe_out : Z) : Process :=
  Process_new (lit command) _pipe_in _pipe_out.

(* ===================================================================== *)
(** * Notions used to describe whole runs *)
(* ===================================================================== *)

(** What the loop of [run_commands] does after [pipe(fd)] in a process
    that goes on to the next pass: when [fork] answered a pid it closes
    [prev_fd[0]] and [prev_fd[1]] if there was an earlier stage, and
    waits. *)
Definition pass_end (prev_fd : Z * Z) (prev : option Process) (pid : Z)
    (w : world) : world :=
  if (pid >? 0)%Z then
    sys_wait (if is_some prev
              then sys_close (snd prev_fd) (sys_close (fst prev_fd) w)
              else w)
  else w.

(** The system calls of a process that is still the shell: forks that
    answered a pid, pipes that were created, closes and waits. *)
Definition shell_call (e : event) : bool :=
  match e with
  | EvFork ret => negb (ret =? 0)%Z && negb (ret =? -1)%Z
  | EvPipe _ _ _ | EvClose _ | EvWait => true
  | EvPipeFail | EvDup2 _ _ | EvExit _ | EvExecvp => false
  end.


(** How many of the calls in [t] are of the kind [f]. *)
Fixpoint count_calls (f : event -> bool) (t : list event) : nat :=
  match t with
  | [] => 0
  | e :: t' => (if f e then 1 else 0) + count_calls f t'
  end.

(** What follows the first command of [t] and the delimiter that ends
    it. *)
Definition skip_command (t : list ascii) : list ascii :=
  let u := drop (strspn t delimiters) t in
  drop (S (strcspn u delimiters)) u.

(** The text of the first command of a line: from the first character
    that is not a delimiter up to the next delimiter or the end of the
    line. *)
Definition first_command (cmd : list ascii) : list ascii :=
  let s := strdup cmd in
  let u := drop (strspn s delimiters) s in
  take (strcspn u delimiters) u.

(** What follows the second command of a line and the delimiter that ends
    it. *)
Definition after_second_command (cmd : list ascii) : list ascii :=
  skip_command (skip_command (strdup cmd)).

(** Where a scan for a token that starts at offset [o] of [s] stops: at
    the delimiter or terminator behind the token. *)
Definition token_end (s : list ascii) (o : nat) : nat :=
  let t := drop o s in
  o + strspn t delimiters + strcspn (drop (strspn t delimiters) t) delimiters.

(** What one pass of the loop of [parse_input] adds to the list. *)
Definition stored_stage (b : cbuf) (olds tok : nat) (pipe_in_val : Z)
  : list Process :=
  let '(next, b1, olds1) := strtok None delimiters b olds in
  let '(rest, b2, _) := strtok None [] b1 olds1 in
  match rest with
  | None => []
  | Some r =>
      [Process_new (drop tok b2) pipe_in_val
         (if Ascii.eqb (char_at b2 r) "|"%char && is_some next
          then 1%Z else 0%Z)]
  end.

(* ===================================================================== *)
(** * Standard input and output *)
(* ===================================================================== *)

(** [std::cin] as the shell sees it: the characters not yet extracted and
    the two state bits [getline] can raise.  Read errors of the device
    ([badbit]) are not modelled. *)
Record istream := mkIstream {
  pending : list ascii;
  eofbit : bool;
  failbit : bool
}.

Definition good (ist : istream) : bool :=
  negb (eofbit ist) && negb (failbit ist).

Definition newline : ascii := "010"%char.

(** The extraction loop of [istream::getline(s, n)] (ISO C++
    [istream.unformatted]), with [room] the number of characters that may
    still be stored.  Before each character the three stop conditions are
    tested in the order of the standard: end of input (raises [eofbit]),
    the next character is the newline (extracted, not stored), no room
    left (raises [failbit], the character stays).  The result is the
    characters stored, the number of characters extracted, the input left
    and the two bits raised. *)
Fixpoint getline_extract (room : nat) (input : list ascii) {struct input}
  : list ascii * nat * list ascii * bool * bool :=
  match input with
  | [] => ([], 0, [], true, false)
  | c :: rest =>
      if Ascii.eqb c newline then ([], 1, rest, false, false)
      else match room with
           | O => ([], 0, input, false, true)
           | S room' =>
               let '(stored, count, unread, e, f) :=
                 getline_extract room' rest in
               (c :: stored, S count, unread, e, f)
           end
  end.

(** [cin.getline(s, n)] for [n > 0]: the array [s] up to and including the
    null character the call stores, and the stream after the call.  On a
    stream that is not [good] the sentry raises [failbit] and nothing is
    extracted; extracting no character raises [failbit] too. *)
Definition getline (n : nat) (ist : istream) : list ascii * istream :=
  if good ist then
    let '(stored, count, unread, e, f) :=
      getline_extract (n - 1) (pending ist) in
    (stored ++ [NUL], mkIstream unread e (f || (count =? 0)))
  else ([NUL], mkIstream (pending ist) (eofbit ist) true).

(** The two streams of the shell; [cout] holds everything written so
    far. *)
Record stdio := mkStdio {
  cin : istream;
  cout : list ascii
}.

Definition MAX_LINE : nat := 81.

(** [std::cout << s]. *)
Definition put (s : string) (io : stdio) : stdio :=
  mkStdio (cin io) (cout io ++ list_ascii_of_string s).

(** [void display_prompt()]. *)
Definition display_prompt (io : stdio) : stdio := put "$ " io.

(** [char *read_input()]: the block the returned pointer refers to, and
    the streams after the call. *)
Definition read_input (io : stdio) : cbuf * stdio :=
  let io := put "Enter a line: " io in
  let '(tempbuf, ist) := getline MAX_LINE (cin io) in
  let input := strdup tempbuf in
  (input, mkStdio ist (cout io)).

(** The streams after [k] calls of [read_input]. *)
Fixpoint after_reads (k : nat) (io : stdio) : stdio :=
  match k with
  | O => io
  | S k' => after_reads k' (snd (read_input io))
  end.

(** Standard input after these lines have been typed, each ended by the
    return key. *)
Definition typed (lines : list string) : list ascii :=
  flat_map (fun l => list_ascii_of_string l ++ [newline]) lines.

(** A character of a line: neither the newline nor the null character. *)
Definition plain_char (c : ascii) : bool :=
  negb (Ascii.eqb c newline) && negb (is_nul c).

(* ===================================================================== *)
(** * run and cleanup *)
(* ===================================================================== *)

(** What the shell runs on, besides its streams: the kernel, the contents
    of the never-assigned array [prev_fd] in the [k]-th call of
    [run_commands], and whether [free(input_line)] in the [k]-th call of
    [cleanup] comes back ([input_line] is never assigned in [run], so the
    allocator is handed whatever the stack holds). *)
Record machine := mkMachine {
  kernel : oracle;
  stack_prev_fd : nat -> Z * Z;
  free_returns : nat -> bool
}.

Record shell := mkShell {
  sh_io : stdio;
  sh_os : world
}.

(** How far [run] gets: it returns; [parse_input] faults; the allocator
    aborts in [cleanup]; the process ends inside [run_commands]; or it is
    still in its loop after the passes that were followed. *)
Inductive run_outcome :=
| RunReturned
| RunFault (f : fault)
| RunInvalidFree
| RunEnded (o : outcome)
| RunGoesOn.

(** [void cleanup(list<Process *> &process_list, char *input_line)]: every
    stage is deleted and the list cleared, then [input_line] is freed;
    [None] when that call does not come back. *)
Definition cleanup (free_ok : bool) (process_list : list Process)
  : option (list Process) :=
  if free_ok then Some [] else None.

(** The loop [while (!is_quit)] of [run], followed for [fuel] passes;
    [pass] counts the passes made before. *)
Fixpoint run_passes (m : machine) (fuel pass : nat)
    (process_list : list Process) (st : shell) : run_outcome * shell :=
  match fuel with
  | O => (RunGoesOn, st)
  | S fuel' =>
    let io := display_prompt (sh_io st) in
    let '(input, io) := read_input io in
    let st := mkShell io (sh_os st) in
    match parse_input input process_list with
    | None => (RunGoesOn, st)
    | Some (Fault f, _) => (RunFault f, st)
    | Some (Ok tt, process_list) =>
      match run_commands (kernel m) (stack_prev_fd m pass) process_list
                         (sh_os st) with
      | (Returned is_quit, w) =>
        let st := mkShell io w in
        match cleanup (free_returns m pass) process_list with
        | None => (RunInvalidFree, st)
        | Some process_list =>
            if is_quit then (RunReturned, st)
            else run_passes m fuel' (S pass) process_list st
        end
      | (o, w) => (RunEnded o, mkShell io w)
      end
    end
  end.

(** [void run()]. *)
Definition run (m : machine) (fuel : nat) (st : shell) : run_outcome * shell :=
  run_passes m fuel 0 [] st.

(** What one pass of [run] writes before it reads. *)
Definition prompts : list ascii := list_ascii_of_string "$ Enter a line: ".

Fixpoint repeat_prompts (k : nat) : list ascii :=
  match k with
  | O => []
  | S k' => prompts ++ repeat_prompts k'
  end.

(** Closes a goal [exists tail, trace w' = trace w ++ tail] once [w'] is
    spelled out as a sequence of system calls made from [w]. *)
Ltac trace_tail :=
  eexists; cbn [trace snd log with_fds sys_close sys_dup2 sys_wait];
  rewrite <- ?app_assoc; reflexivity.

(* ===================================================================== *)
(** * Facts about the C string routines *)
(* ===================================================================== *)

Lemma char_at_drop (b : cbuf) (i k : nat) :
  char_at (drop i b) k = char_at b (i + k).
Proof. unfold char_at. by rewrite lookup_drop. Qed.

Lemma char_at_nil (k : nat) : char_at [] k = NUL.
Proof. unfold char_at. by rewrite lookup_nil. Qed.

Lemma is_nul_true (c : ascii) : is_nul c = true <-> c = NUL.
Proof. unfold is_nul. apply Ascii.eqb_eq. Qed.

(** With an empty reject set [strcspn] runs up to the terminator. *)
Lemma strcspn_nil_stops_at_nul (s : list ascii) :
  is_nul (char_at s (strcspn s [])) = true.
Proof.
  induction s as [|c s IH]; [reflexivity|].
  cbn [strcspn in_set existsb]. rewrite orb_false_r.
  destruct (is_nul c) eqn:Hc.
  - exact Hc.
  - exact IH.
Qed.

(** [strtok] with an empty delimiter set writes nothing. *)
Lemma strtok_nil_block (s : option nat) (b : cbuf) (olds : nat) :
  (strtok s [] b olds).1.2 = b.
Proof.
  unfold strtok.
  destruct (is_nul (char_at b _)); [done|].
  destruct (is_nul (char_at b _)); [done|].
  rewrite <- char_at_drop, strcspn_nil_stops_at_nul. done.
Qed.

(** After a null answer the saved position is at a terminator. *)
Lemma strtok_None (s : option nat) (d : list ascii) (b b' : cbuf)
    (olds olds' : nat) :
  strtok s d b olds = (None, b', olds') ->
  b' = b /\ is_nul (char_at b olds') = true.
Proof.
  unfold strtok.
  destruct (is_nul (char_at b _)) eqn:H0; [by intros [= <- <-]|].
  destruct (is_nul (char_at b (_ + strspn _ _))) eqn:H1; [by intros [= <- <-]|].
  destruct (is_nul (char_at b (_ + strcspn _ _))); intros [=].
Qed.

(** The rest of the line, fetched with [strtok(NULL, "")], leaves the
    saved position at a terminator too. *)
Lemma strtok_nil_saved (s : option nat) (b b' : cbuf) (olds olds' : nat)
    (r : option nat) :
  strtok s [] b olds = (r, b', olds') ->
  b' = b /\ is_nul (char_at b olds') = true.
Proof.
  destruct r as [t|]; [|apply strtok_None].
  unfold strtok.
  destruct (is_nul (char_at b _)) eqn:H0; [intros [=]|].
  destruct (is_nul (char_at b (_ + strspn _ _))) eqn:H1; [intros [=]|].
  destruct (is_nul (char_at b (_ + strcspn _ _))) eqn:H2.
  - by intros [= <- <- <-].
  - rewrite <- char_at_drop, strcspn_nil_stops_at_nul in H2. done.
Qed.

(** From a terminator [strtok(NULL, delim)] answers a null pointer and
    stays where it is. *)
Lemma strtok_at_nul (d : list ascii) (b : cbuf) (olds : nat) :
  is_nul (char_at b olds) = true ->
  strtok None d b olds = (None, b, olds).
Proof. intros H. unfold strtok. by rewrite H. Qed.

Lemma code_inj (x y : ascii) : code x = code y -> x = y.
Proof.
  unfold code. intros H. apply Nat2Z.inj in H.
  rewrite <- (ascii_nat_embedding x), <- (ascii_nat_embedding y). by rewrite H.
Qed.

Lemma code_nul (x : ascii) : code x = 0%Z <-> x = NUL.
Proof.
  split; [|by intros ->].
  intros H. apply code_inj. by rewrite H.
Qed.

(** [strcmp] answers 0 exactly when the two strings are equal. *)
Lemma strcmp_zero (a b : list ascii) :
  strcmp a b = 0%Z <-> cstr a = cstr b.
Proof.
  revert b. induction a as [|x a IH]; intros [|y b]; simpl.
  - done.
  - destruct (is_nul y) eqn:Hy.
    + apply is_nul_true in Hy. subst y. done.
    + split; [|done]. intros H. assert (code y = 0%Z) as Hc by lia.
      apply code_nul, is_nul_true in Hc. congruence.
  - destruct (is_nul x) eqn:Hx.
    + apply is_nul_true in Hx. subst x. done.
    + split; [|done]. intros Hc.
      apply code_nul, is_nul_true in Hc. congruence.
  - destruct (Ascii.eqb x y) eqn:Hxy.
    + apply Ascii.eqb_eq in Hxy. subst y.
      destruct (is_nul x); [done|].
      rewrite IH. split; [by intros ->|by intros [=]].
    + apply Ascii.eqb_neq in Hxy.
      assert (code x - code y <> 0)%Z as Hne.
      { intros H. apply Hxy, code_inj. lia. }
      split; [done|]. intros H. exfalso.
      destruct (is_nul x) eqn:Hx, (is_nul y) eqn:Hy;
        try apply is_nul_true in Hx; try apply is_nul_true in Hy;
        try discriminate H; congruence.
Qed.

Lemma cstr_lit (s : string) :
  (forall c, c ∈ list_ascii_of_string s -> c <> NUL) ->
  cstr (lit s) = list_ascii_of_string s.
Proof.
  unfold lit. induction (list_ascii_of_string s) as [|c l IH]; intros H.
  - done.
  - simpl. destruct (is_nul c) eqn:Hc.
    + apply is_nul_true in Hc. exfalso. apply (H c); [left|done].
    + f_equal. apply IH. intros c' Hc'. apply H. by right.
Qed.

Lemma cstr_no_nul (s : list ascii) : Forall (fun c => is_nul c = false) (cstr s).
Proof.
  induction s as [|c s IH]; simpl; [constructor|].
  destruct (is_nul c) eqn:Hc; [constructor|]. by constructor.
Qed.

Lemma cstr_app_nul (l : list ascii) :
  Forall (fun c => is_nul c = false) l -> cstr (l ++ [NUL]) = l.
Proof.
  induction 1 as [|c l Hc _ IH]; simpl; [done|].
  rewrite Hc. by f_equal.
Qed.

Lemma cstr_strdup (s : list ascii) : cstr (strdup s) = cstr s.
Proof. unfold strdup. apply cstr_app_nul, cstr_no_nul. Qed.

(* ===================================================================== *)
(** * parse_input: the loop and its fault *)
(* ===================================================================== *)

(** A pass that starts with the saved position at a terminator finds no
    next token, fetches a null rest of line and dereferences it. *)
Lemma parse_loop_at_nul (fuel : nat) (b : cbuf) (olds tok : nat) (pin : Z)
    (pl : list Process) :
  is_nul (char_at b olds) = true ->
  parse_loop (S fuel) b olds (Some tok) pin pl
  = Some (Fault NullDereference, pl).
Proof.
  intros H. cbn [parse_loop].
  rewrite (strtok_at_nul delimiters b olds H).
  rewrite (strtok_at_nul [] b olds H). done.
Qed.

(** Once a token is in hand the loop faults, in its first pass or in its
    second, after storing at most one stage. *)
Lemma parse_loop_faults (fuel : nat) (b : cbuf) (olds tok : nat) (pin : Z)
    (pl : list Process) :
  exists pl',
    parse_loop (S (S fuel)) b olds (Some tok) pin pl
    = Some (Fault NullDereference, pl')
    /\ (pl' = pl \/ exists q, pl' = pl ++ [q]).
Proof.
  cbn [parse_loop].
  destruct (strtok None delimiters b olds) as [[next b1] olds1] eqn:E1.
  destruct (strtok None [] b1 olds1) as [[rest b2] olds2] eqn:E2.
  destruct rest as [r|]; [|eauto].
  destruct (strtok_nil_saved _ _ _ _ _ _ E2) as [-> Hnul].
  destruct next as [n|].
  - eexists. split; [apply parse_loop_at_nul, Hnul|]. eauto.
  - destruct (strtok_None _ _ _ _ _ _ E1) as [-> Hnul1].
    rewrite (strtok_at_nul [] b olds1 Hnul1) in E2. discriminate E2.
Qed.

(** Where the leading run of delimiters ends: at the terminator exactly
    when the line holds nothing else. *)
Lemma strspn_reaches_nul (l d : list ascii) :
  Forall (fun c => is_nul c = false) l ->
  is_nul (char_at (l ++ [NUL]) (strspn (l ++ [NUL]) d))
  = negb (existsb (fun c => negb (in_set c d)) l).
Proof.
  induction 1 as [|c l Hc _ IH]; [reflexivity|].
  cbn [app strspn existsb]. rewrite Hc. cbn [negb andb].
  destruct (in_set c d); cbn [negb orb].
  - exact IH.
  - exact Hc.
Qed.

Lemma has_command_length (cmd : list ascii) :
  has_command cmd = true -> exists n, length (strdup cmd) = S (S n).
Proof.
  unfold has_command, strdup. destruct (cstr cmd) as [|c l]; [done|].
  intros _. exists (length l). rewrite length_app. simpl. lia.
Qed.

(** The first [strtok] finds a token exactly when the line has a
    command. *)
Lemma first_token (cmd : list ascii) :
  exists b olds,
    strtok (Some 0) delimiters (strdup cmd) 0
    = (if has_command cmd then Some (strspn (strdup cmd) delimiters) else None,
       b, olds).
Proof.
  pose proof (strspn_reaches_nul (cstr cmd) delimiters (cstr_no_nul cmd)) as H.
  fold (strdup cmd) in H. fold (has_command cmd) in H.
  unfold strtok. rewrite drop_0. cbn [Nat.add].
  destruct (is_nul (char_at (strdup cmd) 0)) eqn:H0.
  - assert (has_command cmd = false) as ->; [|eauto].
    unfold has_command, strdup in *.
    pose proof (cstr_no_nul cmd) as Hn.
    destruct (cstr cmd) as [|c l]; [done|].
    apply Forall_cons in Hn as [Hc _]. cbn in H0. congruence.
  - destruct (has_command cmd); cbn [negb] in H; rewrite H.
    + destruct (is_nul (char_at _ (_ + _))); do 2 eexists; reflexivity.
    + do 2 eexists; reflexivity.
Qed.

Lemma map_split_string (pl : list Process) : map split_string pl = pl.
Proof. induction pl as [|p pl IH]; simpl; [done|]. by rewrite IH. Qed.

(** A line made of delimiters only (or empty) is parsed to the end and
    adds no stage. *)
Lemma parse_input_no_command (cmd : list ascii) (pl : list Process) :
  has_command cmd = false -> parse_input cmd pl = Some (Ok tt, pl).
Proof.
  intros H. unfold parse_input.
  destruct (first_token cmd) as (b & olds & ->). rewrite H.
  destruct (length (strdup cmd)); cbn [parse_loop]; by rewrite map_split_string.
Qed.


(* ===================================================================== *)
(** * parse_input: the pipe flags of adjacent stages *)
(* ===================================================================== *)

Lemma chained_snoc (pin : bool) (pl : list Process) (q : Process) :
  chained pin pl -> pipe_in q = final_out pin pl -> chained pin (pl ++ [q]).
Proof.
  revert pin. induction pl as [|p pl IH]; intros pin; simpl.
  - done.
  - intros [Hp Hc] Hq. split; [done|]. by apply IH.
Qed.

Lemma final_out_snoc (pin : bool) (pl : list Process) (q : Process) :
  final_out pin (pl ++ [q]) = pipe_out q.
Proof. revert pin. induction pl as [|p pl IH]; intros pin; simpl; [done|apply IH]. Qed.


(** What the loop keeps true of [process_list]: the flags are chained and
    [pipe_in_val] is the last stage's [pipe_out]. *)
Lemma parse_loop_chained (fuel : nat) (b : cbuf) (olds : nat)
    (token : option nat) (pin : Z) (pl pl' : list Process) (r : result unit) :
  chained false pl ->
  final_out false pl = int_to_bool pin ->
  parse_loop fuel b olds token pin pl = Some (r, pl') ->
  chained false pl'.
Proof.
  revert b olds token pin pl.
  induction fuel as [|fuel IH]; intros b olds token pin pl Hc Hf;
    destruct token as [tok|]; cbn [parse_loop].
  - discriminate.
  - intros [= _ <-]. exact Hc.
  - destruct (strtok None delimiters b olds) as [[next b1] olds1].
    destruct (strtok None [] b1 olds1) as [[rest b2] olds2].
    destruct rest as [rst|]; [|intros [= _ <-]; exact Hc].
    apply IH.
    + apply chained_snoc; [done|]. by rewrite Hf.
    + by rewrite final_out_snoc.
  - intros [= _ <-]. exact Hc.
Qed.

(* ===================================================================== *)
(** * parse_input: stages and pipe flags *)
(* ===================================================================== *)

(** C1.  On the line "a | b | c" the specification asks for three stages
    with pipe flags (false,true), (true,true), (true,false).  The code
    stores one stage, "a " with flags (false,false) although a '|' follows
    it (the flag is read off the first character of what is left after the
    next token, here " c"), and dereferences a null pointer in the second
    pass of the loop. *)
Theorem parse_input_a_b_c :
  parse_line "a | b | c" = Some (Fault NullDereference, [stage "a " 0 0])
  /\ stage_flags (parse_line "a | b | c") = Some [(false, false)]
  /\ stage_flags (parse_line "a | b | c")
     <> Some [(false, true); (true, true); (true, false)].
Proof.
  assert (parse_line "a | b | c"
          = Some (Fault NullDereference, [stage "a " 0 0])) as H
    by (vm_compute; reflexivity).
  rewrite H. split; [reflexivity|]. split; [reflexivity|discriminate].
Qed.

(** Any line that holds a command makes [parse_input] dereference the null
    pointer [strtok(NULL, "")] answers once the line is used up. *)
Lemma parse_input_faults (cmd : list ascii) (pl : list Process) :
  has_command cmd = true ->
  exists pl', parse_input cmd pl = Some (Fault NullDereference, pl')
              /\ (pl' = pl \/ exists q, pl' = pl ++ [q]).
Proof.
  intros H. unfold parse_input.
  destruct (first_token cmd) as (b & olds & ->). rewrite H.
  destruct (has_command_length cmd H) as [n ->].
  destruct (parse_loop_faults n b olds (strspn (strdup cmd) delimiters) 0 pl)
    as (pl' & -> & Hpl).
  eauto.
Qed.

(** C2.  The specification asks [parse_input] to end normally on every
    line.  On the one-command line "ls" the first pass finds no next token,
    [strtok(NULL, "")] answers a null pointer and the code reads through
    it: the call faults before any stage is stored. *)
Theorem parse_input_ls_null_dereference :
  parse_line "ls" = Some (Fault NullDereference, []).
Proof. vm_compute. reflexivity. Qed.








(** A pass at work, on the block of "a|b||c" after the first [strtok]: it
    is entered with [pipe_in_val] 0, stores "a" and leaves 1, the
    [pipe_out] it gave to "a". *)
Example parse_pass_first :
  strtok (Some 0) delimiters (strdup (lit "a|b||c")) 0
  = (Some 0, lit "a" ++ lit "b||c", 2)
  /\ parse_pass (lit "a" ++ lit "b||c") 2 0 0 []
     = PassNext (lit "a" ++ lit "b" ++ lit "|c") 6 (Some 2) 1
                [stage "a" 0 1]
  /\ parse_input (lit "a|b||c") []
     = Some (Fault NullDereference, [stage "a" 0 1]).
Proof. repeat split; vm_compute; reflexivity. Qed.

(** The same pass entered with [pipe_in_val] 1 behind a stage that writes
    to a pipe: the stage it adds reads from it. *)
Example parse_pass_after_pipe :
  parse_pass (lit "a" ++ lit "b||c") 2 0 1 [stage "x" 0 1]
  = PassNext (lit "a" ++ lit "b" ++ lit "|c") 6 (Some 2) 1
             [stage "x" 0 1; stage "a" 1 1].
Proof. vm_compute. reflexivity. Qed.

(* ===================================================================== *)
(** * Process::split_string *)
(* ===================================================================== *)

Lemma split_string_unchanged (p : Process) : split_string p = p.
Proof. reflexivity. Qed.

(** No stage has its tokens stored by [split_string]. *)
Lemma split_string_stores_nothing (command : string) (i o : Z) :
  ~ argv_stored (split_string (Process_new (lit command) i o))
                (spec_argv command).
Proof. intros (arr & tail & H & _). discriminate H. Qed.

(** C4.  The specification asks [split_string] to store the tokens of the
    command in [cmdTokens], followed by a null entry.  The body of the
    function is empty: for the stage "ls" the object is what the
    constructor left, [cmdTokens] is still indeterminate, and the token
    "ls" is stored nowhere. *)
Theorem split_string_ls :
  split_string (stage "ls" 0 0) = stage "ls" 0 0
  /\ cmdTokens (split_string (stage "ls" 0 0)) = Indeterminate
  /\ spec_argv "ls" = [list_ascii_of_string "ls"]
  /\ ~ argv_stored (split_string (stage "ls" 0 0)) (spec_argv "ls").
Proof.
  repeat split; try reflexivity.
  apply split_string_stores_nothing.
Qed.

(* ===================================================================== *)
(** * isQuit *)
(* ===================================================================== *)

Lemma isQuit_null : isQuit None = (Ok false, None).
Proof. reflexivity. Qed.

Lemma isQuit_null_cmd (p : Process) :
  cmd p = None -> isQuit (Some p) = (Ok false, Some p).
Proof. intros H. unfold isQuit. by rewrite H. Qed.

Lemma set_cmd_same (p : Process) (b : cbuf) :
  cmd p = Some b -> set_cmd p b = p.
Proof. destruct p. simpl. by intros ->. Qed.

Lemma strspn_nil (s : list ascii) : strspn s [] = 0.
Proof. destruct s as [|c s]; [done|]. simpl. by rewrite andb_false_r. Qed.

(** The token [isQuit] compares is the whole command: [strtok(p->cmd, "")]
    splits nothing off. *)
Lemma isQuit_strtok (b : cbuf) :
  exists olds,
    strtok (Some 0) [] b 0
    = (match cstr b with [] => None | _ => Some 0 end, b, olds).
Proof.
  unfold strtok. rewrite drop_0, strspn_nil. cbn [Nat.add].
  assert (is_nul (char_at b 0) = match cstr b with [] => true | _ => false end)
    as ->.
  { destruct b as [|c b]; [done|]. cbn. by destruct (is_nul c). }
  rewrite strcspn_nil_stops_at_nul.
  destruct (cstr b); by eexists.
Qed.

(** [isQuit] faults on a stage whose command is the empty string. *)
Lemma isQuit_empty (p : Process) (b : cbuf) :
  cmd p = Some b -> cstr b = [] ->
  fst (isQuit (Some p)) = Fault NullDereference.
Proof.
  intros Hp Hb. unfold isQuit. rewrite Hp.
  destruct (isQuit_strtok b) as [olds ->]. by rewrite Hb.
Qed.

(** On any other stage it answers whether the whole command is "quit". *)
Lemma isQuit_whole_command (p : Process) (b : cbuf) :
  cmd p = Some b -> cstr b <> [] ->
  fst (isQuit (Some p))
  = Ok (bool_decide (cstr b = list_ascii_of_string "quit")).
Proof.
  intros Hp Hb. unfold isQuit. rewrite Hp.
  destruct (isQuit_strtok b) as [olds ->].
  destruct (cstr b) as [|c l] eqn:E; [done|]. cbn [fst]. rewrite drop_0.
  f_equal. rewrite <- E.
  destruct (bool_decide_reflect (cstr b = list_ascii_of_string "quit")) as [Heq|Hne].
  - apply Z.eqb_eq, strcmp_zero. rewrite Heq. reflexivity.
  - apply Z.eqb_neq. intros H. apply strcmp_zero in H. apply Hne.
    rewrite H. reflexivity.
Qed.

(** C3.  The specification asks for true on "quit now", whose first token
    is "quit".  The code hands the whole command to [strcmp]
    ([strtok(p->cmd, "")] has no delimiter to split on) and answers
    false; "quit" alone gives true, "Quit" and "exit" give false. *)
Theorem isQuit_quit_now :
  spec_isTerminationRequest "quit now" = true
  /\ fst (isQuit (Some (stage "quit now" 0 0))) = Ok false
  /\ fst (isQuit (Some (stage "quit" 0 0))) = Ok true
  /\ fst (isQuit (Some (stage "Quit" 0 0))) = Ok false
  /\ fst (isQuit (Some (stage "exit" 0 0))) = Ok false.
Proof. repeat split; vm_compute; reflexivity. Qed.

(** C9.  The specification asks for false, without a crash, on an empty
    stage.  The code guards against a null [p] and a null [p->cmd] and
    answers false there; for a stage whose command is the empty string
    [strtok] answers a null pointer, which goes to [strcmp]. *)
Theorem isQuit_empty_command :
  isQuit None = (Ok false, None)
  /\ (forall tokens pin pout fd,
        fst (isQuit (Some (mkProcess None tokens pin pout fd))) = Ok false)
  /\ fst (isQuit (Some (stage "" 0 0))) = Fault NullDereference.
Proof.
  split; [reflexivity|]. split; [|vm_compute; reflexivity].
  intros tokens pin pout fd. by rewrite isQuit_null_cmd.
Qed.

(** C10.  A call [isQuit(p)] on a stage with a command leaves the stage as
    it was, whether the call answers or faults: [strtok(p->cmd, "")]
    overwrites no character of the command, and no other member is
    assigned. *)
Theorem isQuit_leaves_stage_unchanged (p : Process) (b : cbuf) :
  cmd p = Some b -> snd (isQuit (Some p)) = Some p.
Proof.
  intros Hp. unfold isQuit. rewrite Hp.
  destruct (isQuit_strtok b) as [olds ->].
  destruct (cstr b); cbn [snd]; by rewrite set_cmd_same.
Qed.

Lemma isQuit_leaves_stage_unchanged_witness :
  cmd (stage "quit now" 0 0) = Some (lit "quit now")
  /\ snd (isQuit (Some (stage "quit now" 0 0))) = Some (stage "quit now" 0 0).
Proof.
  split; [reflexivity|].
  apply (isQuit_leaves_stage_unchanged (stage "quit now" 0 0) (lit "quit now")).
  reflexivity.
Defined.

(* ===================================================================== *)
(** * run_commands: descriptors *)
(* ===================================================================== *)

Lemma open_pipe_ends_alloc (since : nat) (o : fobj) (t t' : fdtable) (n : nat) :
  run_pipe_end since (Some o) = true ->
  alloc_fd o t = (n, t') ->
  open_pipe_ends since t' = S (open_pipe_ends since t).
Proof.
  intros Ho. revert n t'.
  induction t as [|[x|] t IH]; intros n t'; cbn [alloc_fd].
  - intros [= <- <-]. cbn [open_pipe_ends]. rewrite Ho. done.
  - destruct (alloc_fd o t) as [m t''] eqn:E. intros [= <- <-].
    cbn [open_pipe_ends]. rewrite (IH _ _ eq_refl). lia.
  - intros [= <- <-]. cbn [open_pipe_ends]. rewrite Ho. cbn [run_pipe_end]. lia.
Qed.

(** Closing one descriptor closes at most one pipe end. *)
Lemma open_pipe_ends_clear (since : nat) (t : fdtable) (i : nat) :
  open_pipe_ends since t <= S (open_pipe_ends since (<[i := None]> t)).
Proof.
  revert i. induction t as [|e t IH]; intros i; [simpl; lia|].
  destruct i as [|i]; simpl.
  - destruct (run_pipe_end since e); lia.
  - specialize (IH i). simpl in IH. lia.
Qed.

Lemma sys_close_pipe_ends (since : nat) (fd : Z) (w : world) :
  open_pipe_ends since (fds w)
  <= S (open_pipe_ends since (fds (sys_close fd w))).
Proof.
  unfold sys_close. cbn [log with_fds fds].
  destruct (fd <? 0)%Z; [lia|]. apply open_pipe_ends_clear.
Qed.

Lemma sys_close_pipes (fd : Z) (w : world) : pipes (sys_close fd w) = pipes w.
Proof. reflexivity. Qed.

Lemma sys_close_forks (fd : Z) (w : world) : forks (sys_close fd w) = forks w.
Proof. reflexivity. Qed.

(** A successful [pipe] opens two ends of a pipe of this run. *)
Lemma sys_pipe_pipe_ends (env : oracle) (since : nat) (w w1 : world) (fd : Z * Z) :
  since <= pipes w ->
  sys_pipe env w = (Some fd, w1) ->
  pipes w1 = S (pipes w) /\ forks w1 = forks w
  /\ open_pipe_ends since (fds w1) = S (S (open_pipe_ends since (fds w))).
Proof.
  intros Hs. unfold sys_pipe.
  destruct (pipe_ok env (pipes w)); [|discriminate].
  destruct (alloc_fd (PipeRd (pipes w)) (fds w)) as [rd t1] eqn:E1.
  destruct (alloc_fd (PipeWr (pipes w)) t1) as [wr t2] eqn:E2.
  intros [= _ <-]. cbn [pipes forks fds]. repeat split.
  assert ((since <=? pipes w) = true) as Hle by (by apply Nat.leb_le).
  rewrite (open_pipe_ends_alloc since (PipeWr (pipes w)) _ _ _ Hle E2),
          (open_pipe_ends_alloc since (PipeRd (pipes w)) _ _ _ Hle E1).
  done.
Qed.

(** One pass of the loop that lets the call come back: either the stage is
    taken for a quit request and nothing was done, or a pipe was created
    and at most the two descriptors named by [prev_fd] were closed. *)
Lemma run_loop_step (env : oracle) (prev_fd : Z * Z) (prev : option Process)
    (p0 : Process) (rest : list Process) (w w' : world) (b : bool)
    (since : nat) :
  since <= pipes w ->
  run_loop env prev_fd prev (p0 :: rest) w = (Returned b, w') ->
  (quits p0 = true /\ b = true /\ w' = w)
  \/ (quits p0 = false /\ exists q w1,
        run_loop env prev_fd (Some q) rest w1 = (Returned b, w')
        /\ pipes w1 = S (pipes w)
        /\ forks w1 = S (forks w)
        /\ open_pipe_ends since (fds w) + 2
           <= open_pipe_ends since (fds w1) + (if is_some prev then 2 else 0)).
Proof.
  intros Hs. cbn [run_loop]. unfold quits.
  destruct (isQuit (Some p0)) as [[[|]|f] after]; cbn [fst];
    [by intros [= <- <-]; left| |discriminate].
  intros H. right. split; [done|]. revert H.
  unfold sys_fork.
  destruct (fork_ret env (forks w) =? -1)%Z; [discriminate|].
  destruct (sys_pipe env _) as [[fd|] w1] eqn:Ep; [|discriminate].
  apply (sys_pipe_pipe_ends env since) in Ep as (Hp & Hf & Hn); [|exact Hs].
  cbn [pipes forks fds] in Hp, Hf, Hn.
  destruct (fork_ret env (forks w) =? 0)%Z; [by destruct (exec_ok env)|].
  destruct (fork_ret env (forks w) >? 0)%Z.
  - intros H. eexists _, _. split; [exact H|].
    unfold sys_wait. cbn [log pipes forks fds].
    destruct prev as [pv|]; cbn [is_some].
    + rewrite !sys_close_pipes, !sys_close_forks. repeat split; [done..|].
      pose proof (sys_close_pipe_ends since (fst prev_fd) w1).
      pose proof (sys_close_pipe_ends since (snd prev_fd)
                    (sys_close (fst prev_fd) w1)).
      lia.
    + repeat split; [done..|]. lia.
  - intros H. eexists _, _. split; [exact H|].
    repeat split; [done..|]. destruct (is_some prev); lia.
Qed.

(** From any point of the loop on, the number of open pipe ends of this
    run does not go down. *)
Lemma run_loop_keeps_pipe_ends (env : oracle) (prev_fd : Z * Z) (q : Process)
    (l : list Process) (w w' : world) (b : bool) (since : nat) :
  since <= pipes w ->
  run_loop env prev_fd (Some q) l w = (Returned b, w') ->
  open_pipe_ends since (fds w) <= open_pipe_ends since (fds w').
Proof.
  revert q w. induction l as [|p0 rest IH]; intros q w Hs H.
  - injection H as _ <-. done.
  - apply (run_loop_step _ _ _ _ _ _ _ _ since Hs) in H
      as [(_ & _ & ->)|(_ & q' & w1 & H & Hp & _ & Hn)]; [done|].
    cbn [is_some] in Hn. apply IH in H; lia.
Qed.

(** Whenever [run_commands] comes back after creating a pipe, two ends of
    pipes it created are still open in the process. *)
Lemma run_commands_leaks (env : oracle) (prev_fd : Z * Z)
    (l : list Process) (w w' : world) (b : bool) :
  run_commands env prev_fd l w = (Returned b, w') ->
  pipes w < pipes w' ->
  2 <= open_pipe_ends (pipes w) (fds w').
Proof.
  unfold run_commands. destruct l as [|p0 rest].
  - intros [= _ <-]. lia.
  - intros H Hlt.
    apply (run_loop_step _ _ _ _ _ _ _ _ (pipes w) (le_n _)) in H
      as [(_ & _ & ->)|(_ & q' & w1 & H & Hp & _ & Hn)]; [lia|].
    cbn [is_some] in Hn.
    apply (run_loop_keeps_pipe_ends _ _ _ _ _ _ _ (pipes w)) in H; lia.
Qed.

(** C5.  The specification asks that no pipe descriptor created by a run
    stays open in the shell.  For the one-stage pipeline "ls" the shell
    creates a pipe after the fork (descriptors 3 and 4) and comes back
    without a single [close]: both ends are still open. *)
Theorem run_commands_ls_leaves_pipe_open (prev_fd : Z * Z) :
  run_commands parent_env prev_fd [stage "ls" 0 0] shell_start
  = (Returned false,
     mkWorld [Some Tty; Some Tty; Some Tty; Some (PipeRd 0); Some (PipeWr 0)]
             1 1 [EvFork 100; EvPipe 0 3 4; EvWait])
  /\ filter is_close [EvFork 100; EvPipe 0 3 4; EvWait] = []
  /\ open_pipe_ends 0
       [Some Tty; Some Tty; Some Tty; Some (PipeRd 0); Some (PipeWr 0)] = 2.
Proof. split; [reflexivity|]. split; reflexivity. Qed.

(* ===================================================================== *)
(** * run_commands: order of the system calls *)
(* ===================================================================== *)

(** The loop only ever appends to the log. *)
Lemma run_loop_trace_extends (env : oracle) (prev_fd : Z * Z)
    (prev : option Process) (l : list Process) (w : world) :
  exists tail, trace (snd (run_loop env prev_fd prev l w)) = trace w ++ tail.
Proof.
  revert prev w. induction l as [|p0 rest IH]; intros prev w.
  - exists []. by rewrite app_nil_r.
  - cbn [run_loop].
    destruct (isQuit (Some p0)) as [[[|]|f] after];
      try (exists []; by rewrite app_nil_r).
    unfold sys_fork.
    destruct (fork_ret env (forks w) =? -1)%Z; [trace_tail|].
    unfold sys_pipe. cbn [pipes fds forks trace].
    destruct (pipe_ok env (pipes w)); [|trace_tail].
    destruct (alloc_fd (PipeRd (pipes w)) (fds w)) as [rd t1].
    destruct (alloc_fd (PipeWr (pipes w)) t1) as [wr t2].
    destruct (fork_ret env (forks w) =? 0)%Z.
    { destruct (pipe_in _), (is_some prev), (pipe_out _), (exec_ok env);
        trace_tail. }
    destruct (fork_ret env (forks w) >? 0)%Z;
      match goal with
      | |- context [run_loop env prev_fd ?pv rest ?w1] =>
          destruct (IH pv w1) as [tail ->]
      end;
      destruct (is_some prev); trace_tail.
Qed.

(** The first system call of a pass that spawns is [fork]; the pipe of
    that pass does not exist yet. *)
Lemma run_loop_forks_first (env : oracle) (prev_fd : Z * Z)
    (prev : option Process) (p0 : Process) (rest : list Process) (w : world) :
  fst (isQuit (Some p0)) = Ok false ->
  exists tail,
    trace (snd (run_loop env prev_fd prev (p0 :: rest) w))
    = trace w ++ EvFork (fork_ret env (forks w)) :: tail.
Proof.
  intros Hq.
  cbn [run_loop]. destruct (isQuit (Some p0)) as [r after].
  cbn [fst] in Hq. subst r.
  unfold sys_fork.
  destruct (fork_ret env (forks w) =? -1)%Z; [trace_tail|].
  unfold sys_pipe. cbn [pipes fds forks trace].
  destruct (pipe_ok env (pipes w)); [|trace_tail].
  destruct (alloc_fd (PipeRd (pipes w)) (fds w)) as [rd t1].
  destruct (alloc_fd (PipeWr (pipes w)) t1) as [wr t2].
  destruct (fork_ret env (forks w) =? 0)%Z.
  { destruct (pipe_in _), (is_some prev), (pipe_out _), (exec_ok env);
      trace_tail. }
  destruct (fork_ret env (forks w) >? 0)%Z;
    match goal with
    | |- context [run_loop env prev_fd ?pv rest ?w1] =>
        destruct (run_loop_trace_extends env prev_fd pv rest w1) as [tail ->]
    end;
    destruct (is_some prev); trace_tail.
Qed.

(** In the shell, with a kernel that refuses nothing and stages [isQuit]
    can read, the call comes back, with true exactly when [isQuit] accepts
    a stage; one fork and one pipe are made for each stage in front of
    that one, and none from it on. *)
Lemma run_loop_in_parent (env : oracle) (prev_fd : Z * Z)
    (prev : option Process) (l : list Process) (w : world) :
  (forall n, (0 < fork_ret env n)%Z) ->
  (forall n, pipe_ok env n = true) ->
  forallb isQuit_returns l = true ->
  exists w',
    run_loop env prev_fd prev l w = (Returned (existsb quits l), w')
    /\ forks w' = forks w + length (before_quit l)
    /\ pipes w' = pipes w + length (before_quit l).
Proof.
  intros Hfork Hpipe. revert prev w.
  induction l as [|p0 rest IH]; intros prev w Hl.
  - exists w. cbn. repeat split; lia.
  - cbn [forallb] in Hl. apply andb_true_iff in Hl as [Hp0 Hrest].
    cbn [run_loop existsb before_quit]. unfold quits, isQuit_returns in *.
    destruct (isQuit (Some p0)) as [[[|]|f] after]; cbn [fst] in *;
      [|clear Hp0|discriminate].
    + exists w. cbn. repeat split; lia.
    + unfold sys_fork. pose proof (Hfork (forks w)) as Hpid.
      destruct (Z.eqb_spec (fork_ret env (forks w)) (-1)); [lia|].
      unfold sys_pipe. cbn [pipes fds forks trace]. rewrite Hpipe.
      destruct (alloc_fd (PipeRd (pipes w)) (fds w)) as [rd t1].
      destruct (alloc_fd (PipeWr (pipes w)) t1) as [wr t2].
      destruct (Z.eqb_spec (fork_ret env (forks w)) 0); [lia|].
      destruct (Z.gtb_spec (fork_ret env (forks w)) 0); [|lia].
      match goal with
      | |- context [run_loop env prev_fd ?pv rest ?w1] =>
          destruct (IH pv w1 Hrest) as (w' & -> & Hf & Hp)
      end.
      exists w'. split; [done|].
      rewrite Hf, Hp. destruct (is_some prev); cbn; lia.
Qed.

(** C6.  The specification asks that the pipe of an adjacency exist before
    the fork of a stage that needs it, one pipe for each connected pair.
    For "a | b" (flags as the specification gives them) the shell forks
    the writer "a" before any pipe exists and creates two pipes, one after
    each fork; the child forked for "a" creates a pipe of its own and
    points its standard output at it. *)
Theorem run_commands_forks_before_pipe (prev_fd : Z * Z) :
  trace (snd (run_commands parent_env prev_fd
                [stage "a" 0 1; stage "b" 1 0] shell_start))
  = [EvFork 100; EvPipe 0 3 4; EvWait;
     EvFork 101; EvPipe 1 5 6;
     EvClose (fst prev_fd); EvClose (snd prev_fd); EvWait]
  /\ run_commands (child_env 0) prev_fd
       [stage "a" 0 1; stage "b" 1 0] shell_start
     = (ChildExec Indeterminate,
        mkWorld [Some Tty; Some (PipeWr 0); Some Tty; None; None] 1 1
                [EvFork 0; EvPipe 0 3 4; EvDup2 4 1;
                 EvClose 3; EvClose 4; EvExecvp]).
Proof. split; reflexivity. Qed.

(** C7.  The specification asks for true, and no process, when a stage's
    first token is "quit".  For the one-stage pipeline "quit now" the call
    answers false after a fork and a pipe, because [isQuit] compares the
    whole command; the stage "quit" alone stops the loop before any system
    call, also for the stages behind it. *)
Theorem run_commands_quit_now (prev_fd : Z * Z) :
  spec_isTerminationRequest "quit now" = true
  /\ run_commands parent_env prev_fd [stage "quit now" 0 0] shell_start
     = (Returned false,
        mkWorld [Some Tty; Some Tty; Some Tty; Some (PipeRd 0); Some (PipeWr 0)]
                1 1 [EvFork 100; EvPipe 0 3 4; EvWait])
  /\ run_commands parent_env prev_fd
       [stage "quit" 0 0; stage "ls" 0 0] shell_start
     = (Returned true, shell_start).
Proof. split; [reflexivity|]. split; reflexivity. Qed.

(* ===================================================================== *)
(** * The functions on the lines and stages of the specification *)
(* ===================================================================== *)

(** The two unit tests of [test.cpp]. *)
Example test_Quit :
  fst (isQuit (Some (split_string (stage "quit" 0 0)))) = Ok true.
Proof. reflexivity. Qed.

Example test_NotQuit :
  fst (isQuit (Some (split_string (stage "exit" 0 0)))) = Ok false.
Proof. reflexivity. Qed.

(** An empty line and a line of delimiters give an empty pipeline. *)
Example parse_line_empty : parse_line "" = Some (Ok tt, []).
Proof. reflexivity. Qed.

Example parse_line_delimiters : parse_line ";|;" = Some (Ok tt, []).
Proof. reflexivity. Qed.

(** "a ; b": the first pass finds "b" as the next token and nothing after
    it. *)
Example parse_line_sequence :
  parse_line "a ; b" = Some (Fault NullDereference, []).
Proof. vm_compute. reflexivity. Qed.

(** The one way a stage gets [pipe_out] set: the text left after the next
    token starts with '|'. *)
Example parse_line_double_bar :
  parse_line "a|b||c" = Some (Fault NullDereference, [stage "a" 0 1]).
Proof. vm_compute. reflexivity. Qed.

(** A stage cut out of "quit ; ls" keeps its trailing blank and is not
    taken for a quit request. *)
Example isQuit_trailing_blank :
  fst (isQuit (Some (stage "quit " 0 0))) = Ok false.
Proof. reflexivity. Qed.

(** Three stages in the shell, with [prev_fd] happening to name the first
    pipe: the closes of the second pass hit descriptors 3 and 4, the third
    pipe is given the same numbers and closed in its own pass, and the
    second pipe stays open. *)
Example run_commands_three_stages :
  run_commands parent_env (3, 4)%Z
    [stage "a" 0 1; stage "b" 1 1; stage "c" 1 0] shell_start
  = (Returned false,
     mkWorld [Some Tty; Some Tty; Some Tty; None; None;
              Some (PipeRd 1); Some (PipeWr 1)]
             3 3
             [EvFork 100; EvPipe 0 3 4; EvWait;
              EvFork 101; EvPipe 1 5 6; EvClose 3; EvClose 4; EvWait;
              EvFork 102; EvPipe 2 3 4; EvClose 3; EvClose 4; EvWait]).
Proof. reflexivity. Qed.

(** The child forked for the second stage of "a | b": its standard input
    is pointed at [prev_fd[1]]. *)
Example run_commands_second_child :
  run_commands (child_env 1) (3, 4)%Z
    [stage "a" 0 1; stage "b" 1 0] shell_start
  = (ChildExec Indeterminate,
     mkWorld [Some (PipeWr 0); Some Tty; Some Tty; None; None; None; None]
             2 2
             [EvFork 100; EvPipe 0 3 4; EvWait;
              EvFork 0; EvPipe 1 5 6; EvDup2 4 0;
              EvClose 3; EvClose 4; EvClose 5; EvClose 6; EvExecvp]).
Proof. reflexivity. Qed.

(** A failing [fork] ends the shell with status 1. *)
Example run_commands_fork_fails :
  run_commands (mkOracle (fun _ => (-1)%Z) (fun _ => true) true) (0, 0)%Z
    [stage "ls" 0 0] shell_start
  = (Exited 1, mkWorld [Some Tty; Some Tty; Some Tty] 1 0
                       [EvFork (-1); EvExit 1]).
Proof. reflexivity. Qed.

(* ===================================================================== *)
(** * isQuit: the answer for every stage *)
(* ===================================================================== *)

(** X1.  What [isQuit] does with every stage: false when the command
    pointer is null, a null dereference when the command is the empty
    string, and otherwise whether the whole command, not its first word,
    is "quit". *)
Theorem isQuit_answer (p : Process) :
  fst (isQuit (Some p))
  = match cmd p with
    | None => Ok false
    | Some b =>
        match cstr b with
        | [] => Fault NullDereference
        | _ => Ok (bool_decide (cstr b = list_ascii_of_string "quit"))
        end
    end.
Proof.
  destruct (cmd p) as [b|] eqn:Hp.
  - destruct (cstr b) as [|c l] eqn:Hb.
    + by apply (isQuit_empty p b).
    + rewrite <- Hb. apply isQuit_whole_command; [done|]. by rewrite Hb.
  - by rewrite isQuit_null_cmd.
Qed.

(** X2.  A stage fresh from the constructor, whatever its pipe flags: the
    answer depends on the text handed to the constructor only, and the
    stage is handed back as it was built. *)
Theorem isQuit_Process_new (s : list ascii) (i o : Z) :
  isQuit (Some (Process_new s i o))
  = (match cstr s with
     | [] => Fault NullDereference
     | _ => Ok (bool_decide (cstr s = list_ascii_of_string "quit"))
     end,
     Some (Process_new s i o)).
Proof.
  set (p := Process_new s i o).
  assert (cmd p = Some (strdup s)) as Hp by reflexivity.
  rewrite (surjective_pairing (isQuit (Some p))). f_equal.
  - destruct (cstr s) as [|c l] eqn:Hs.
    + apply (isQuit_empty p (strdup s) Hp). by rewrite cstr_strdup.
    + rewrite <- Hs, <- (cstr_strdup s).
      apply isQuit_whole_command; [done|]. by rewrite cstr_strdup, Hs.
  - unfold isQuit. rewrite Hp.
    destruct (isQuit_strtok (strdup s)) as [olds ->].
    destruct (cstr (strdup s)); cbn [snd]; by rewrite set_cmd_same.
Qed.

(* ===================================================================== *)
(** * run_commands: whole runs *)
(* ===================================================================== *)

(** One pass of the loop in a run that comes back, with the world after
    it spelled out. *)
Lemma run_loop_pass (env : oracle) (prev_fd : Z * Z) (prev : option Process)
    (p0 : Process) (rest : list Process) (w w' : world) (b : bool) :
  run_loop env prev_fd prev (p0 :: rest) w = (Returned b, w') ->
  (quits p0 = true /\ b = true /\ w' = w)
  \/ (quits p0 = false /\ exists q fd w1,
        fork_ret env (forks w) <> 0%Z
        /\ fork_ret env (forks w) <> (-1)%Z
        /\ sys_pipe env (snd (sys_fork env w)) = (Some fd, w1)
        /\ run_loop env prev_fd (Some q) rest
             (pass_end prev_fd prev (fork_ret env (forks w)) w1)
           = (Returned b, w')).
Proof.
  cbn [run_loop]. unfold quits.
  destruct (isQuit (Some p0)) as [[[|]|f] after]; cbn [fst];
    [by intros [= <- <-]; left| |discriminate].
  intros H. right. split; [done|]. revert H.
  unfold sys_fork at 1. cbn [snd].
  destruct (Z.eqb_spec (fork_ret env (forks w)) (-1)); [discriminate|].
  unfold sys_fork.
  destruct (sys_pipe env _) as [[fd|] w1] eqn:Ep; [|discriminate].
  destruct (Z.eqb_spec (fork_ret env (forks w)) 0);
    [by destruct (exec_ok env)|].
  intros H. exists (default p0 after), fd, w1.
  repeat split; [done..|].
  unfold pass_end, sys_wait.
  destruct (fork_ret env (forks w) >? 0)%Z; exact H.
Qed.

Lemma sys_pipe_trace (env : oracle) (w w1 : world) (fd : Z * Z) :
  sys_pipe env w = (Some fd, w1) ->
  exists id rd wr, trace w1 = trace w ++ [EvPipe id rd wr].
Proof.
  unfold sys_pipe. destruct (pipe_ok env (pipes w)); [|discriminate].
  destruct (alloc_fd (PipeRd (pipes w)) (fds w)) as [rd t1].
  destruct (alloc_fd (PipeWr (pipes w)) t1) as [wr t2].
  intros [= _ <-]. by eexists _, _, _.
Qed.

Lemma pass_end_trace (prev_fd : Z * Z) (prev : option Process) (pid : Z)
    (w : world) :
  exists t, trace (pass_end prev_fd prev pid w) = trace w ++ t
            /\ forallb shell_call t = true.
Proof.
  unfold pass_end. destruct (pid >? 0)%Z.
  - destruct (is_some prev).
    + exists [EvClose (fst prev_fd); EvClose (snd prev_fd); EvWait].
      split; [|done]. cbn. by rewrite <- !app_assoc.
    + by exists [EvWait].
  - exists []. by rewrite app_nil_r.
Qed.

(** X3.  A process in which [run_commands] comes back has been the shell
    throughout: every [fork] it made answered a pid, every [pipe] was
    created, and besides those it has only closed descriptors and waited.
    It has redirected nothing and has called neither [execvp] nor [exit]:
    a child never falls back into the loop. *)
Theorem run_commands_returns_in_shell (env : oracle) (prev_fd : Z * Z)
    (l : list Process) (w w' : world) (b : bool) :
  run_commands env prev_fd l w = (Returned b, w') ->
  exists calls, trace w' = trace w ++ calls /\ forallb shell_call calls = true.
Proof.
  unfold run_commands. generalize (@None Process) as prev.
  revert w. induction l as [|p0 rest IH]; intros w prev H.
  - injection H as _ <-. exists []. by rewrite app_nil_r.
  - apply run_loop_pass in H
      as [(_ & _ & ->)|(_ & q & fd & w1 & H0 & H1 & Hp & H)].
    + exists []. by rewrite app_nil_r.
    + apply IH in H as (calls & -> & Hcalls).
      destruct (pass_end_trace prev_fd prev (fork_ret env (forks w)) w1)
        as (t & -> & Ht).
      apply sys_pipe_trace in Hp as (id & rd & wr & ->). cbn [sys_fork snd trace].
      eexists. rewrite <- !app_assoc. split; [reflexivity|].
      cbn [app forallb shell_call]. rewrite forallb_app, Ht, Hcalls.
      destruct (Z.eqb_spec (fork_ret env (forks w)) 0); [done|].
      destruct (Z.eqb_spec (fork_ret env (forks w)) (-1)); done.
Qed.

Lemma run_commands_returns_in_shell_witness :
  run_commands parent_env (3, 4)%Z [stage "a" 0 1; stage "b" 1 0] shell_start
  = (Returned false,
     mkWorld [Some Tty; Some Tty; Some Tty; None; None;
              Some (PipeRd 1); Some (PipeWr 1)] 2 2
             [EvFork 100; EvPipe 0 3 4; EvWait;
              EvFork 101; EvPipe 1 5 6; EvClose 3; EvClose 4; EvWait])
  /\ exists calls,
       [EvFork 100; EvPipe 0 3 4; EvWait;
        EvFork 101; EvPipe 1 5 6; EvClose 3; EvClose 4; EvWait]
       = trace shell_start ++ calls
       /\ forallb shell_call calls = true.
Proof.
  split; [reflexivity|].
  apply (run_commands_returns_in_shell parent_env (3, 4)%Z
           [stage "a" 0 1; stage "b" 1 0] shell_start
           (mkWorld [Some Tty; Some Tty; Some Tty; None; None;
                     Some (PipeRd 1); Some (PipeWr 1)] 2 2
                    [EvFork 100; EvPipe 0 3 4; EvWait;
                     EvFork 101; EvPipe 1 5 6; EvClose 3; EvClose 4; EvWait])
           false).
  reflexivity.
Defined.

Lemma alloc_fd_keeps (o x : fobj) (t t' : fdtable) (n k : nat) :
  alloc_fd o t = (n, t') ->
  t !! k = Some (Some x) -> t' !! k = Some (Some x).
Proof.
  revert n t' k. induction t as [|[y|] t IH]; intros n t' k; cbn [alloc_fd].
  - by intros _ ?.
  - destruct (alloc_fd o t) as [m t''] eqn:E. intros [= <- <-].
    destruct k as [|k]; [done|]. cbn. by apply IH with m.
  - intros [= <- <-]. by destruct k as [|k].
Qed.

Lemma open_at_Some (t : fdtable) (k : Z) (x : fobj) :
  open_at t k = Some x
  <-> (0 <= k)%Z /\ t !! Z.to_nat k = Some (Some x).
Proof.
  unfold open_at. destruct (Z.ltb_spec k 0).
  - split; [done|]. lia.
  - destruct (t !! Z.to_nat k) as [[y|]|]; cbn; split;
      try done; try (intros [_ [=]]; congruence); intros [=]; by subst.
Qed.

Lemma sys_pipe_keeps (env : oracle) (w w1 : world) (fd : Z * Z) (k : Z)
    (x : fobj) :
  sys_pipe env w = (Some fd, w1) ->
  open_at (fds w) k = Some x -> open_at (fds w1) k = Some x.
Proof.
  unfold sys_pipe. destruct (pipe_ok env (pipes w)); [|discriminate].
  destruct (alloc_fd (PipeRd (pipes w)) (fds w)) as [rd t1] eqn:E1.
  destruct (alloc_fd (PipeWr (pipes w)) t1) as [wr t2] eqn:E2.
  intros [= _ <-]. cbn [fds]. rewrite !open_at_Some. intros [Hk Hx].
  split; [done|].
  apply (alloc_fd_keeps _ _ _ _ _ _ E2), (alloc_fd_keeps _ _ _ _ _ _ E1), Hx.
Qed.

Lemma sys_close_keeps (fd k : Z) (w : world) (x : fobj) :
  k <> fd ->
  open_at (fds w) k = Some x -> open_at (fds (sys_close fd w)) k = Some x.
Proof.
  intros Hne. unfold sys_close. cbn [log with_fds fds].
  destruct (Z.ltb_spec fd 0); [done|].
  rewrite !open_at_Some. intros [Hk Hx]. split; [done|].
  rewrite list_lookup_insert_ne; [done|lia].
Qed.

Lemma pass_end_keeps (prev_fd : Z * Z) (prev : option Process) (pid k : Z)
    (w : world) (x : fobj) :
  k <> fst prev_fd -> k <> snd prev_fd ->
  open_at (fds w) k = Some x ->
  open_at (fds (pass_end prev_fd prev pid w)) k = Some x.
Proof.
  intros H0 H1 Hx. unfold pass_end, sys_wait.
  destruct (pid >? 0)%Z; [|done]. cbn [log fds].
  destruct (is_some prev); [|done].
  by apply sys_close_keeps, sys_close_keeps.
Qed.

(** X4.  In a run that comes back, the only descriptors the shell can have
    lost are the two named by the never-assigned [prev_fd]: any other
    descriptor that was open before the call is open after it and refers
    to the same thing. *)
Theorem run_commands_closes_only_prev_fd (env : oracle) (prev_fd : Z * Z)
    (l : list Process) (w w' : world) (b : bool) (k : Z) (x : fobj) :
  run_commands env prev_fd l w = (Returned b, w') ->
  k <> fst prev_fd -> k <> snd prev_fd ->
  open_at (fds w) k = Some x ->
  open_at (fds w') k = Some x.
Proof.
  unfold run_commands. generalize (@None Process) as prev.
  intros prev H H0 H1. revert w prev H.
  induction l as [|p0 rest IH]; intros w prev H Hx.
  - by injection H as _ <-.
  - apply run_loop_pass in H
      as [(_ & _ & ->)|(_ & q & fd & w1 & _ & _ & Hp & H)]; [done|].
    apply (IH _ _ H). apply pass_end_keeps; [done..|].
    by apply (sys_pipe_keeps _ _ _ _ _ _ Hp).
Qed.

Lemma run_commands_closes_only_prev_fd_witness :
  run_commands parent_env (0, 1)%Z [stage "a" 0 1; stage "b" 1 0] shell_start
  = (Returned false,
     mkWorld [None; None; Some Tty; Some (PipeRd 0); Some (PipeWr 0);
              Some (PipeRd 1); Some (PipeWr 1)] 2 2
             [EvFork 100; EvPipe 0 3 4; EvWait;
              EvFork 101; EvPipe 1 5 6; EvClose 0; EvClose 1; EvWait])
  /\ open_at (fds shell_start) 2 = Some Tty
  /\ open_at [None; None; Some Tty; Some (PipeRd 0); Some (PipeWr 0);
              Some (PipeRd 1); Some (PipeWr 1)] 2 = Some Tty.
Proof.
  split; [reflexivity|]. split; [reflexivity|].
  apply (run_commands_closes_only_prev_fd parent_env (0, 1)%Z
           [stage "a" 0 1; stage "b" 1 0] shell_start
           (mkWorld [None; None; Some Tty; Some (PipeRd 0); Some (PipeWr 0);
                     Some (PipeRd 1); Some (PipeWr 1)] 2 2
                    [EvFork 100; EvPipe 0 3 4; EvWait;
                     EvFork 101; EvPipe 1 5 6; EvClose 0; EvClose 1; EvWait])
           false 2%Z Tty);
    [reflexivity|discriminate|discriminate|reflexivity].
Defined.

(** X5.  When the call ends the process by [exit], the status is 1 and
    the [exit] comes straight after one of three things: a [fork] that
    answered -1, a [pipe] that failed, or, in a child (a [fork] answered
    0), an [execvp] that came back. *)
Theorem run_commands_exit_status (env : oracle) (prev_fd : Z * Z)
    (l : list Process) (w w' : world) (status : Z) :
  run_commands env prev_fd l w = (Exited status, w') ->
  status = 1%Z
  /\ exists before,
       trace w' = before ++ [EvFork (-1); EvExit 1]
       \/ trace w' = before ++ [EvPipeFail; EvExit 1]
       \/ (exec_ok env = false
           /\ EvFork 0 ∈ before
           /\ trace w' = before ++ [EvExecvp; EvExit 1]).
Proof.
  unfold run_commands. generalize (@None Process) as prev.
  revert w. induction l as [|p0 rest IH]; intros w prev; [discriminate|].
  cbn [run_loop].
  destruct (isQuit (Some p0)) as [[[|]|f] after]; try discriminate.
  unfold sys_fork.
  destruct (Z.eqb_spec (fork_ret env (forks w)) (-1)) as [->|_].
  { intros [= <- <-]. split; [done|]. exists (trace w). left.
    cbn. by rewrite <- app_assoc. }
  unfold sys_pipe. cbn [pipes fds forks trace].
  destruct (pipe_ok env (pipes w)).
  - destruct (alloc_fd (PipeRd (pipes w)) (fds w)) as [rd t1].
    destruct (alloc_fd (PipeWr (pipes w)) t1) as [wr t2].
    destruct (Z.eqb_spec (fork_ret env (forks w)) 0) as [->|_].
    + destruct (exec_ok env) eqn:Hexec; [discriminate|].
      intros [= <- <-]. split; [done|].
      eexists. right. right. split; [done|].
      cbn [log trace].
      rewrite <- (app_assoc _ [EvExecvp] [EvExit 1%Z]).
      split; [|reflexivity].
      destruct (pipe_in _), (is_some prev), (pipe_out _);
        cbn [trace log with_fds sys_close sys_dup2];
        rewrite !elem_of_app, !list_elem_of_singleton; tauto.
    + destruct (fork_ret env (forks w) >? 0)%Z; apply IH.
  - intros [= <- <-]. split; [done|].
    exists (trace w ++ [EvFork (fork_ret env (forks w))]). right. left.
    cbn. by rewrite <- !app_assoc.
Qed.

Lemma run_commands_exit_status_witness :
  run_commands (mkOracle (fun _ => 0%Z) (fun _ => true) false) (7, 9)%Z
    [stage "ls" 0 1] shell_start
  = (Exited 1,
     mkWorld [Some Tty; Some (PipeWr 0); Some Tty; None; None] 1 1
             [EvFork 0; EvPipe 0 3 4; EvDup2 4 1; EvClose 3; EvClose 4;
              EvExecvp; EvExit 1])
  /\ (1 = 1)%Z
  /\ exists before,
       [EvFork 0; EvPipe 0 3 4; EvDup2 4 1; EvClose 3; EvClose 4;
        EvExecvp; EvExit 1]
       = before ++ [EvFork (-1); EvExit 1]
       \/ [EvFork 0; EvPipe 0 3 4; EvDup2 4 1; EvClose 3; EvClose 4;
           EvExecvp; EvExit 1]
          = before ++ [EvPipeFail; EvExit 1]
       \/ (false = false
           /\ EvFork 0 ∈ before
           /\ [EvFork 0; EvPipe 0 3 4; EvDup2 4 1; EvClose 3; EvClose 4;
               EvExecvp; EvExit 1]
              = before ++ [EvExecvp; EvExit 1]).
Proof.
  split; [reflexivity|].
  apply (run_commands_exit_status
           (mkOracle (fun _ => 0%Z) (fun _ => true) false) (7, 9)%Z
           [stage "ls" 0 1] shell_start
           (mkWorld [Some Tty; Some (PipeWr 0); Some Tty; None; None] 1 1
                    [EvFork 0; EvPipe 0 3 4; EvDup2 4 1; EvClose 3; EvClose 4;
                     EvExecvp; EvExit 1])
           1%Z).
  reflexivity.
Defined.

(** The two exits of the shell itself: a [pipe] that fails in the second
    pass, and a [fork] that fails. *)
Example run_commands_pipe_fails :
  run_commands (mkOracle (fun _ => 100%Z) (fun n => n =? 0) true) (0, 0)%Z
    [stage "a" 0 1; stage "b" 1 0] shell_start
  = (Exited 1,
     mkWorld [Some Tty; Some Tty; Some Tty; Some (PipeRd 0); Some (PipeWr 0)]
             2 2
             [EvFork 100; EvPipe 0 3 4; EvWait;
              EvFork 100; EvPipeFail; EvExit 1]).
Proof. reflexivity. Qed.

Lemma count_calls_app (f : event -> bool) (t u : list event) :
  count_calls f (t ++ u) = count_calls f t + count_calls f u.
Proof. induction t as [|e t IH]; cbn; [done|]. rewrite IH. lia. Qed.




(** X7.  Whatever the kernel answers and whatever [prev_fd] holds, a call
    that comes back after creating at least one pipe leaves at least two
    ends of the pipes it created open in the process. *)
Theorem run_commands_leaves_pipe_ends (env : oracle) (prev_fd : Z * Z)
    (l : list Process) (w w' : world) (b : bool) :
  run_commands env prev_fd l w = (Returned b, w') ->
  pipes w < pipes w' ->
  2 <= open_pipe_ends (pipes w) (fds w').
Proof.
  unfold run_commands. destruct l as [|p0 rest].
  - intros [= _ <-]. lia.
  - intros H Hlt.
    apply (run_loop_step _ _ _ _ _ _ _ _ (pipes w) (le_n _)) in H
      as [(_ & _ & ->)|(_ & q' & w1 & H & Hp & _ & Hn)]; [lia|].
    cbn [is_some] in Hn.
    apply (run_loop_keeps_pipe_ends _ _ _ _ _ _ _ (pipes w)) in H; lia.
Qed.

Lemma run_commands_leaves_pipe_ends_witness :
  run_commands parent_env (3, 4)%Z
    [stage "a" 0 1; stage "b" 1 1; stage "c" 1 0] shell_start
  = (Returned false,
     mkWorld [Some Tty; Some Tty; Some Tty; None; None;
              Some (PipeRd 1); Some (PipeWr 1)]
             3 3
             [EvFork 100; EvPipe 0 3 4; EvWait;
              EvFork 101; EvPipe 1 5 6; EvClose 3; EvClose 4; EvWait;
              EvFork 102; EvPipe 2 3 4; EvClose 3; EvClose 4; EvWait])
  /\ pipes shell_start < 3
  /\ 2 <= open_pipe_ends (pipes shell_start)
            [Some Tty; Some Tty; Some Tty; None; None;
             Some (PipeRd 1); Some (PipeWr 1)].
Proof.
  split; [reflexivity|]. split; [cbn; lia|].
  apply (run_commands_leaves_pipe_ends parent_env (3, 4)%Z
           [stage "a" 0 1; stage "b" 1 1; stage "c" 1 0] shell_start
           (mkWorld [Some Tty; Some Tty; Some Tty; None; None;
                     Some (PipeRd 1); Some (PipeWr 1)]
                    3 3
                    [EvFork 100; EvPipe 0 3 4; EvWait;
                     EvFork 101; EvPipe 1 5 6; EvClose 3; EvClose 4; EvWait;
                     EvFork 102; EvPipe 2 3 4; EvClose 3; EvClose 4; EvWait])
           false);
    [reflexivity|cbn; lia].
Defined.

(* ===================================================================== *)
(** * parse_input: what every line gives *)
(* ===================================================================== *)

(** X8.  [parse_input] comes back exactly on the lines that hold no
    command (empty, or delimiters only), and then the list is as it was:
    no line ever yields a pipeline the caller gets to run. *)
Theorem parse_input_returns_iff (cmd : list ascii) (pl pl' : list Process) :
  parse_input cmd pl = Some (Ok tt, pl')
  <-> has_command cmd = false /\ pl' = pl.
Proof.
  split.
  - intros H. destruct (has_command cmd) eqn:Hc.
    + destruct (parse_input_faults cmd pl Hc) as (pl0 & H0 & _).
      rewrite H0 in H. discriminate H.
    + rewrite (parse_input_no_command cmd pl Hc) in H. by injection H as <-.
  - intros [Hc ->]. by apply parse_input_no_command.
Qed.

(** X9.  Every line that holds a command, however long its pipeline, makes
    [parse_input] dereference a null pointer; by then it has added at most
    one stage to the list, behind the ones that were there. *)
Theorem parse_input_command_line_faults (cmd : list ascii)
    (pl : list Process) :
  has_command cmd = true ->
  exists pl', parse_input cmd pl = Some (Fault NullDereference, pl')
              /\ (pl' = pl \/ exists q, pl' = pl ++ [q]).
Proof.
  intros H. unfold parse_input.
  destruct (first_token cmd) as (b & olds & ->). rewrite H.
  destruct (has_command_length cmd H) as [n ->].
  destruct (parse_loop_faults n b olds (strspn (strdup cmd) delimiters) 0 pl)
    as (pl' & -> & Hpl).
  by exists pl'.
Qed.

Lemma parse_input_command_line_faults_witness :
  has_command (lit "echo hi | cat") = true
  /\ exists pl',
       parse_input (lit "echo hi | cat") [] = Some (Fault NullDereference, pl')
       /\ (pl' = [] \/ exists q, pl' = [] ++ [q]).
Proof.
  split; [reflexivity|].
  apply (parse_input_command_line_faults (lit "echo hi | cat") []).
  reflexivity.
Defined.

Lemma char_at_agree (b s : list ascii) (o i : nat) :
  drop o b = drop o s -> o <= i -> char_at b i = char_at s i.
Proof.
  intros H Hi. replace i with (o + (i - o)) by lia.
  by rewrite <- !char_at_drop, H.
Qed.

Lemma drop_agree (b s : list ascii) (o i : nat) :
  drop o b = drop o s -> o <= i -> drop i b = drop i s.
Proof.
  intros H Hi. replace i with (o + (i - o)) by lia.
  by rewrite <- !drop_drop, H.
Qed.

Lemma skip_command_drop (s : list ascii) (o : nat) :
  skip_command (drop o s) = drop (S (token_end s o)) s.
Proof.
  unfold skip_command, token_end. rewrite !drop_drop. f_equal. lia.
Qed.

(** In a block built by [strdup] the terminator is the last character. *)
Lemma nul_is_last (l : list ascii) (i : nat) :
  Forall (fun c => is_nul c = false) l ->
  is_nul (char_at (l ++ [NUL]) i) = true ->
  drop (S i) (l ++ [NUL]) = [].
Proof.
  intros Hl Hi. apply drop_ge. rewrite length_app. cbn.
  destruct (decide (i < length l)) as [Hlt|]; [|lia].
  exfalso. unfold char_at in Hi. rewrite lookup_app_l in Hi by done.
  destruct (lookup_lt_is_Some_2 l i Hlt) as [c Hc]. rewrite Hc in Hi.
  rewrite Forall_lookup in Hl. specialize (Hl i c Hc). cbn in Hi. congruence.
Qed.

Lemma scan_at_nul (t d : list ascii) :
  is_nul (char_at t 0) = true -> strspn t d = 0 /\ strcspn t d = 0.
Proof.
  destruct t as [|c t]; [done|]. cbn. intros ->. done.
Qed.

(** A call [strtok(NULL, delimiters)] on the block being tokenised, read
    off the untouched copy [l ++ [NUL]] of the line: either the scan runs
    into the terminator, and nothing is left behind it, or it overwrites
    the delimiter behind the token and saves the position after it. *)
Lemma strtok_scan (l : list ascii) (b : cbuf) (o : nat) :
  Forall (fun c => is_nul c = false) l ->
  drop o b = drop o (l ++ [NUL]) ->
  if is_nul (char_at (l ++ [NUL]) (token_end (l ++ [NUL]) o))
  then skip_command (drop o (l ++ [NUL])) = []
       /\ exists r o', strtok None delimiters b o = (r, b, o')
                       /\ is_nul (char_at b o') = true
  else strtok None delimiters b o
       = (Some (o + strspn (drop o (l ++ [NUL])) delimiters),
          <[token_end (l ++ [NUL]) o := NUL]> b,
          S (token_end (l ++ [NUL]) o)).
Proof.
  intros Hl Hb. set (s := l ++ [NUL]) in *.
  rewrite skip_command_drop. unfold token_end, strtok. rewrite Hb.
  set (t := drop o s).
  rewrite (char_at_agree b s o o Hb (le_n _)).
  destruct (is_nul (char_at s o)) eqn:H0.
  { assert (is_nul (char_at t 0) = true) as Ht
      by (unfold t; by rewrite char_at_drop, Nat.add_0_r).
    destruct (scan_at_nul t delimiters Ht) as [-> Hc].
    rewrite drop_0, Hc, !Nat.add_0_r, H0.
    split; [by apply nul_is_last|]. exists None, o. split; [done|].
    by rewrite (char_at_agree b s o o Hb (le_n _)). }
  rewrite (char_at_agree b s o (o + strspn t delimiters) Hb) by lia.
  rewrite (drop_agree b s o (o + strspn t delimiters) Hb) by lia.
  replace (drop (o + strspn t delimiters) s)
    with (drop (strspn t delimiters) t) by (unfold t; by rewrite drop_drop).
  set (u := drop (strspn t delimiters) t).
  destruct (is_nul (char_at s (o + strspn t delimiters))) eqn:H1.
  { assert (is_nul (char_at u 0) = true) as Hu.
    { unfold u, t. by rewrite !char_at_drop, Nat.add_0_r. }
    destruct (scan_at_nul u delimiters Hu) as [_ ->].
    rewrite Nat.add_0_r, H1.
    split; [by apply nul_is_last|].
    exists None, (o + strspn t delimiters). split; [done|].
    rewrite (char_at_agree b s o _ Hb); [done|lia]. }
  rewrite (char_at_agree b s o _ Hb) by lia.
  destruct (is_nul (char_at s (o + strspn t delimiters + strcspn u delimiters)))
    eqn:H2; [|reflexivity].
  split; [by apply nul_is_last|].
  eexists _, _. split; [reflexivity|].
  rewrite (char_at_agree b s o _ Hb); [done|lia].
Qed.

(** [strtok(NULL, "")] from any position: the rest of the line, or a null
    pointer when nothing is left. *)
Lemma strtok_nil_from (b : cbuf) (o : nat) :
  exists o',
    strtok None [] b o
    = (if is_nul (char_at b o) then None else Some o, b, o').
Proof.
  unfold strtok. rewrite strspn_nil, Nat.add_0_r.
  destruct (is_nul (char_at b o)) eqn:H0; [by eexists|].
  rewrite <- char_at_drop, strcspn_nil_stops_at_nul. by eexists.
Qed.

(** With a token in hand the loop faults, and the list is then what the
    first pass has made of it. *)
Lemma parse_loop_first_pass (fuel : nat) (b : cbuf) (olds tok : nat)
    (pin : Z) (pl : list Process) :
  parse_loop (S (S fuel)) b olds (Some tok) pin pl
  = Some (Fault NullDereference, pl ++ stored_stage b olds tok pin).
Proof.
  cbn [parse_loop]. unfold stored_stage.
  destruct (strtok None delimiters b olds) as [[next b1] olds1] eqn:E1.
  destruct (strtok None [] b1 olds1) as [[rest b2] olds2] eqn:E2.
  destruct rest as [r|]; [|by rewrite app_nil_r].
  destruct (strtok_nil_saved _ _ _ _ _ _ E2) as [-> Hnul].
  destruct next as [n|].
  - by apply parse_loop_at_nul.
  - destruct (strtok_None _ _ _ _ _ _ E1) as [-> Hnul1].
    rewrite (strtok_at_nul [] b olds1 Hnul1) in E2. discriminate E2.
Qed.

Lemma strcspn_take (t d : list ascii) :
  Forall (fun c => is_nul c = false /\ in_set c d = false)
         (take (strcspn t d) t).
Proof.
  induction t as [|c t IH]; cbn; [constructor|].
  destruct (is_nul c) eqn:Hc; cbn; [constructor|].
  destruct (in_set c d) eqn:Hd; cbn; [constructor|].
  by constructor.
Qed.

Lemma cstr_insert_nul (l : list ascii) (k : nat) :
  Forall (fun c => is_nul c = false) (take k l) ->
  k < length l ->
  cstr (<[k := NUL]> l) = take k l.
Proof.
  revert k. induction l as [|c l IH]; intros k Hk Hlen; [cbn in Hlen; lia|].
  destruct k as [|k]; [done|]. cbn in *.
  apply Forall_cons in Hk as [-> Hk]. f_equal. apply IH; [done|lia].
Qed.

Lemma cstr_insert_beyond (l : list ascii) (i j : nat) (x : ascii) :
  is_nul (char_at l i) = true -> i < j -> cstr (<[j := x]> l) = cstr l.
Proof.
  revert i j. induction l as [|c l IH]; intros i j Hi Hij; [done|].
  destruct j as [|j]; [lia|]. cbn.
  destruct (is_nul c) eqn:Hc; [done|]. f_equal.
  destruct i as [|i]; [cbn in Hi; congruence|].
  apply (IH i); [exact Hi|lia].
Qed.

Lemma cstr_head (t : list ascii) :
  cstr t = if is_nul (char_at t 0) then [] else char_at t 0 :: cstr (drop 1 t).
Proof. destruct t as [|c t]; [done|]. cbn. by rewrite drop_0. Qed.

Lemma char_at_lt (s : list ascii) (i : nat) :
  is_nul (char_at s i) = false -> i < length s.
Proof.
  unfold char_at. intros H. apply lookup_lt_is_Some.
  destruct (s !! i); [done|]. cbn in H. discriminate H.
Qed.

(** The text of the first token survives the later calls of [strtok]: they
    write behind its terminator only. *)
Lemma first_token_text (s : list ascii) (e1 : nat) :
  is_nul (char_at s (token_end s 0)) = false ->
  token_end s 0 < e1 ->
  cstr (drop (strspn s delimiters)
             (<[e1 := NUL]> (<[token_end s 0 := NUL]> s)))
  = take (strcspn (drop (strspn s delimiters) s) delimiters)
         (drop (strspn s delimiters) s).
Proof.
  unfold token_end. rewrite drop_0, Nat.add_0_l.
  set (n := strspn s delimiters). set (u := drop n s).
  set (k := strcspn u delimiters).
  intros He Hlt. apply char_at_lt in He.
  assert (k < length u) as Hk by (unfold u; rewrite length_drop; lia).
  rewrite drop_insert_ge by lia.
  rewrite (drop_insert_ge s n (n + k)) by lia.
  replace (n + k - n) with k by lia. fold u.
  rewrite (cstr_insert_beyond _ k).
  - apply cstr_insert_nul; [|done].
    eapply Forall_impl; [apply strcspn_take|]. by intros c [? _].
  - unfold char_at. by rewrite list_lookup_insert_eq.
  - lia.
Qed.

(** X10.  What [parse_input] makes of every line.  It faults as soon as
    the line holds a command.  It stores a stage only when something
    follows the second command and the delimiter behind it; that stage is
    the first command of the line, with [pipe_in] false, and its
    [pipe_out] says whether the character after the second command's
    delimiter, not the delimiter after the first command, is '|'. *)
Theorem parse_input_result (cmd : list ascii) (pl : list Process) :
  parse_input cmd pl
  = Some (if has_command cmd then Fault NullDereference else Ok tt,
          pl ++ match cstr (after_second_command cmd) with
                | [] => []
                | c :: _ =>
                    [mkProcess (Some (first_command cmd ++ [NUL]))
                               Indeterminate false (Ascii.eqb c "|")
                               Indeterminate]
                end).
Proof.
  unfold parse_input, after_second_command, first_command.
  pose proof (first_token cmd) as (b0 & olds0 & Hfirst).
  pose proof (strtok_scan (cstr cmd) (strdup cmd) 0 (cstr_no_nul cmd) eq_refl)
    as Hscan.
  fold (strdup cmd) in Hscan. set (s := strdup cmd) in *.
  change (strtok (Some 0) delimiters s 0) with (strtok None delimiters s 0)
    in Hfirst |- *.
  rewrite <- (drop_0 s) at 2. rewrite skip_command_drop.
  destruct (is_nul (char_at s (token_end s 0))) eqn:He.
  - (* the first scan runs into the terminator *)
    destruct Hscan as (Hskip & r & o' & Hr & Hnul).
    rewrite skip_command_drop in Hskip. rewrite Hskip.
    rewrite Hr in Hfirst |- *. injection Hfirst as -> _ _.
    cbn [skip_command strspn strcspn drop cstr]. rewrite app_nil_r.
    destruct (has_command cmd) eqn:Hc.
    + destruct (has_command_length cmd Hc) as [n Hn]. fold s in Hn.
      rewrite Hn. by rewrite parse_loop_at_nul.
    + destruct (length s); cbn [parse_loop]; by rewrite map_split_string.
  - (* the first token ends at a delimiter *)
    rewrite Hscan in Hfirst |- *.
    assert (has_command cmd = true) as Hc
      by (destruct (has_command cmd); [done|discriminate Hfirst]).
    rewrite Hc. destruct (has_command_length cmd Hc) as [n Hn]. fold s in Hn.
    rewrite Hn, parse_loop_first_pass. do 2 f_equal.
    unfold stored_stage. rewrite drop_0, Nat.add_0_l.
    set (e := token_end s 0) in *.
    pose proof (strtok_scan (cstr cmd) (<[e := NUL]> s) (S e) (cstr_no_nul cmd))
      as Hscan2.
    fold (strdup cmd) in Hscan2. fold s in Hscan2.
    rewrite drop_insert_lt in Hscan2 by lia. specialize (Hscan2 eq_refl).
    rewrite skip_command_drop.
    destruct (is_nul (char_at s (token_end s (S e)))) eqn:He1.
    + (* the second scan runs into the terminator *)
      destruct Hscan2 as (Hskip & r & o' & -> & Hnul).
      rewrite (strtok_at_nul [] _ o' Hnul).
      rewrite skip_command_drop in Hskip. by rewrite Hskip.
    + (* the second token ends at a delimiter too *)
      rewrite Hscan2. set (e1 := token_end s (S e)) in *.
      assert (e < e1) as Hlt by (unfold e1, token_end; lia).
      set (b1 := <[e1 := NUL]> (<[e := NUL]> s)).
      destruct (strtok_nil_from b1 (S e1)) as [o' ->].
      assert (char_at b1 (S e1) = char_at s (S e1)) as Hch.
      { unfold b1, char_at. by rewrite !list_lookup_insert_ne by lia. }
      rewrite Hch, (cstr_head (drop (S e1) s)), char_at_drop, Nat.add_0_r.
      destruct (is_nul (char_at s (S e1))); [done|].
      rewrite Hch. unfold Process_new, strdup at 1, b1.
      rewrite first_token_text by done.
      unfold int_to_bool. cbn [is_some]. rewrite andb_true_r.
      by destruct (Ascii.eqb (char_at s (S e1)) "|").
Qed.

(* ===================================================================== *)
(** * read_input *)
(* ===================================================================== *)

Lemma getline_extract_stored (room : nat) (input : list ascii) :
  length (getline_extract room input).1.1.1.1 <= room
  /\ Forall (fun c => c <> newline) (getline_extract room input).1.1.1.1.
Proof.
  revert room. induction input as [|c rest IH]; intros room; cbn.
  - split; [lia|constructor].
  - destruct (Ascii.eqb_spec c newline) as [|Hc]; cbn.
    + split; [lia|constructor].
    + destruct room as [|room]; cbn; [split; [lia|constructor]|].
      specialize (IH room).
      destruct (getline_extract room rest) as [[[[stored count] unread] e] f].
      cbn in *. destruct IH as [Hlen Hnl]. split; [lia|by constructor].
Qed.

(** What [strdup] copies out of an array is a leading part of what was
    stored in it. *)
Lemma cstr_stored (l : list ascii) :
  exists rest, l = cstr (l ++ [NUL]) ++ rest.
Proof.
  induction l as [|c l [rest IH]]; [by exists []|]. cbn.
  destruct (is_nul c); [by eexists|]. exists rest. cbn. by rewrite <- IH.
Qed.

(** X11.  Whatever standard input holds, the line [read_input] returns is
    a string of at most 80 characters (MAX_LINE - 1) without a newline. *)
Theorem read_input_bounded (io : stdio) :
  fst (read_input io) = cstr (fst (read_input io)) ++ [NUL]
  /\ length (cstr (fst (read_input io))) <= 80
  /\ Forall (fun c => c <> newline) (cstr (fst (read_input io))).
Proof.
  unfold read_input, getline. cbn [cin put].
  assert (forall stored : list ascii,
            length stored <= 80 ->
            Forall (fun c => c <> newline) stored ->
            strdup (stored ++ [NUL]) = cstr (strdup (stored ++ [NUL])) ++ [NUL]
            /\ length (cstr (strdup (stored ++ [NUL]))) <= 80
            /\ Forall (fun c => c <> newline) (cstr (strdup (stored ++ [NUL]))))
    as Hgen.
  { intros stored Hlen Hnl. rewrite cstr_strdup. split; [done|].
    destruct (cstr_stored stored) as [rest Hr].
    split.
    - rewrite Hr in Hlen. rewrite length_app in Hlen. lia.
    - rewrite Hr in Hnl. by apply Forall_app in Hnl as [? _]. }
  destruct (good (cin io)).
  - pose proof (getline_extract_stored (MAX_LINE - 1) (pending (cin io)))
      as [Hlen Hnl].
    destruct (getline_extract (MAX_LINE - 1) (pending (cin io)))
      as [[[[stored count] unread] e] f].
    cbn [fst] in *. by apply Hgen.
  - cbn [fst]. apply (Hgen []); [cbn; lia|constructor].
Qed.

Lemma plain_char_spec (c : ascii) :
  plain_char c = true -> c <> newline /\ is_nul c = false.
Proof.
  unfold plain_char. intros [H1 H2]%andb_true_iff.
  apply negb_true_iff in H1, H2. split; [|done].
  by apply Ascii.eqb_neq.
Qed.

Lemma getline_extract_line (room : nat) (line rest : list ascii) :
  forallb plain_char line = true -> length line <= room ->
  getline_extract room (line ++ newline :: rest)
  = (line, S (length line), rest, false, false).
Proof.
  revert room. induction line as [|c line IH]; intros room Hl Hlen; cbn.
  - done.
  - cbn in Hl. apply andb_true_iff in Hl as [Hc Hl].
    apply plain_char_spec in Hc as [Hc _].
    destruct (Ascii.eqb_spec c newline); [done|].
    destruct room as [|room]; [cbn in Hlen; lia|].
    rewrite (IH room); [done..|]. cbn in Hlen. lia.
Qed.

Lemma getline_extract_long (line : list ascii) (c : ascii) (rest : list ascii) :
  forallb plain_char line = true -> c <> newline ->
  getline_extract (length line) (line ++ c :: rest)
  = (line, length line, c :: rest, false, true).
Proof.
  intros Hl Hc. induction line as [|c' line IH]; cbn.
  - by destruct (Ascii.eqb_spec c newline).
  - cbn in Hl. apply andb_true_iff in Hl as [Hc' Hl].
    apply plain_char_spec in Hc' as [Hc' _].
    destruct (Ascii.eqb_spec c' newline); [done|].
    by rewrite IH.
Qed.

Lemma getline_extract_end (room : nat) (line : list ascii) :
  forallb plain_char line = true -> length line <= room ->
  getline_extract room line = (line, length line, [], true, false).
Proof.
  revert room. induction line as [|c line IH]; intros room Hl Hlen; cbn.
  - done.
  - cbn in Hl. apply andb_true_iff in Hl as [Hc Hl].
    apply plain_char_spec in Hc as [Hc _].
    destruct (Ascii.eqb_spec c newline); [done|].
    destruct room as [|room]; [cbn in Hlen; lia|].
    rewrite (IH room); [done..|]. cbn in Hlen. lia.
Qed.

Lemma strdup_line (line : list ascii) :
  forallb plain_char line = true -> strdup (line ++ [NUL]) = line ++ [NUL].
Proof.
  intros Hl. unfold strdup. f_equal. apply cstr_app_nul.
  apply Forall_forall. intros c Hc.
  rewrite forallb_forall in Hl. apply plain_char_spec, Hl.
  by apply list_elem_of_In.
Qed.

(** X12.  With standard input in good state and a next line of at most 80
    characters, [read_input] returns exactly that line, without its
    newline, and leaves the stream good at the start of the line after
    it. *)
Theorem read_input_line (io : stdio) (line rest : list ascii) :
  good (cin io) = true ->
  pending (cin io) = line ++ newline :: rest ->
  forallb plain_char line = true ->
  length line <= 80 ->
  read_input io
  = (line ++ [NUL],
     mkStdio (mkIstream rest false false)
             (cout io ++ list_ascii_of_string "Enter a line: ")).
Proof.
  intros Hg Hp Hl Hlen. unfold read_input, getline. cbn [cin cout put].
  rewrite Hg, Hp, (getline_extract_line _ _ _ Hl) by (cbn; lia).
  by rewrite (strdup_line _ Hl).
Qed.

Lemma read_input_line_witness :
  good (mkIstream (typed ["ls"; "quit"]) false false) = true
  /\ read_input (mkStdio (mkIstream (typed ["ls"; "quit"]) false false) [])
     = (lit "ls",
        mkStdio (mkIstream (typed ["quit"]) false false)
                ([] ++ list_ascii_of_string "Enter a line: ")).
Proof.
  split; [reflexivity|].
  apply (read_input_line
           (mkStdio (mkIstream (typed ["ls"; "quit"]) false false) [])
           (list_ascii_of_string "ls")
           (typed ["quit"]));
    [reflexivity|reflexivity|reflexivity|cbn; lia].
Defined.

(** X13.  A line of more than 80 characters is cut after the 80th, and the
    cut raises [failbit]: the rest of the line stays unread and the stream
    is no longer good. *)
Theorem read_input_long_line (io : stdio) (line : list ascii) (c : ascii)
    (rest : list ascii) :
  good (cin io) = true ->
  pending (cin io) = line ++ c :: rest ->
  forallb plain_char line = true ->
  length line = 80 ->
  c <> newline ->
  read_input io
  = (line ++ [NUL],
     mkStdio (mkIstream (c :: rest) false true)
             (cout io ++ list_ascii_of_string "Enter a line: ")).
Proof.
  intros Hg Hp Hl Hlen Hc. unfold read_input, getline. cbn [cin cout put].
  rewrite Hg, Hp. change (MAX_LINE - 1) with 80. rewrite <- Hlen.
  rewrite (getline_extract_long _ _ _ Hl Hc), Hlen.
  by rewrite (strdup_line _ Hl).
Qed.

Lemma read_input_long_line_witness :
  length (replicate 80 "a"%char) = 80
  /\ read_input (mkStdio (mkIstream (replicate 80 "a"%char
                                     ++ typed ["b"; "ls"])
                          false false) [])
     = (replicate 80 "a"%char ++ [NUL],
        mkStdio (mkIstream (typed ["b"; "ls"]) false true)
                ([] ++ list_ascii_of_string "Enter a line: ")).
Proof.
  split; [reflexivity|].
  apply (read_input_long_line
           (mkStdio (mkIstream (replicate 80 "a"%char
                                ++ typed ["b"; "ls"])
                               false false) [])
           (replicate 80 "a"%char) "b"%char (newline :: typed ["ls"]));
    [reflexivity|reflexivity|reflexivity|reflexivity|discriminate].
Defined.

(** X14.  At the end of the input, with or without a last line that lacks
    its newline, [read_input] returns what is left as the line and raises
    [eofbit], and [failbit] as well when nothing was left. *)
Theorem read_input_end_of_input (io : stdio) (line : list ascii) :
  good (cin io) = true ->
  pending (cin io) = line ->
  forallb plain_char line = true ->
  length line <= 80 ->
  read_input io
  = (line ++ [NUL],
     mkStdio (mkIstream [] true (length line =? 0))
             (cout io ++ list_ascii_of_string "Enter a line: ")).
Proof.
  intros Hg Hp Hl Hlen. unfold read_input, getline. cbn [cin cout put].
  rewrite Hg, Hp, (getline_extract_end _ _ Hl) by (cbn; lia).
  by rewrite (strdup_line _ Hl).
Qed.

Lemma read_input_end_of_input_witness :
  good (mkIstream (list_ascii_of_string "quit") false false) = true
  /\ read_input (mkStdio (mkIstream (list_ascii_of_string "quit") false false) [])
     = (lit "quit",
        mkStdio (mkIstream [] true false)
                ([] ++ list_ascii_of_string "Enter a line: ")).
Proof.
  split; [reflexivity|].
  apply (read_input_end_of_input
           (mkStdio (mkIstream (list_ascii_of_string "quit") false false) [])
           (list_ascii_of_string "quit"));
    [reflexivity|reflexivity|reflexivity|cbn; lia].
Defined.

Lemma read_input_not_good (io : stdio) :
  good (cin io) = false ->
  read_input io
  = ([NUL],
     mkStdio (mkIstream (pending (cin io)) (eofbit (cin io)) true)
             (cout io ++ list_ascii_of_string "Enter a line: ")).
Proof. intros Hg. unfold read_input, getline. cbn [cin cout put]. by rewrite Hg. Qed.

(** X15.  Once standard input is not good (after the end of the input or
    after an over-long line) nothing clears it: every later call of
    [read_input] returns the empty line and extracts nothing, however much
    input is still waiting. *)
Theorem read_input_stays_failed (io : stdio) (k : nat) :
  good (cin io) = false ->
  fst (read_input (after_reads k io)) = [NUL]
  /\ pending (cin (after_reads k io)) = pending (cin io)
  /\ good (cin (after_reads k io)) = false.
Proof.
  revert io. induction k as [|k IH]; intros io Hg; cbn [after_reads].
  - by rewrite read_input_not_good.
  - rewrite (read_input_not_good io Hg). cbn [snd].
    destruct (IH (mkStdio (mkIstream (pending (cin io)) (eofbit (cin io)) true)
                          (cout io ++ list_ascii_of_string "Enter a line: ")))
      as (H1 & H2 & H3).
    + unfold good. cbn. by rewrite andb_false_r.
    + done.
Qed.

Lemma read_input_stays_failed_witness :
  good (mkIstream (typed ["b"; "ls"]) false true) = false
  /\ fst (read_input (after_reads 3
            (mkStdio (mkIstream (typed ["b"; "ls"]) false true) []))) = [NUL]
  /\ pending (cin (after_reads 3
            (mkStdio (mkIstream (typed ["b"; "ls"]) false true) [])))
     = typed ["b"; "ls"]
  /\ good (cin (after_reads 3
            (mkStdio (mkIstream (typed ["b"; "ls"]) false true) []))) = false.
Proof.
  split; [reflexivity|].
  apply (read_input_stays_failed
           (mkStdio (mkIstream (typed ["b"; "ls"]) false true) []) 3).
  reflexivity.
Defined.

(* ===================================================================== *)
(** * run: parse_input, run_commands and cleanup together *)
(* ===================================================================== *)

(** X16.  What [run] does with a line: whenever [parse_input] comes back
    from a list that was empty, [run_commands] on what it left comes back
    with false and has made no call of its own: no [fork], no [pipe].  No
    line makes the shell spawn a process, and none is taken for a quit
    request. *)
Theorem parse_input_then_run_commands (cmd : list ascii) (pl : list Process)
    (env : oracle) (prev_fd : Z * Z) (w : world) :
  parse_input cmd [] = Some (Ok tt, pl) ->
  run_commands env prev_fd pl w = (Returned false, w).
Proof.
  intros H. destruct (has_command cmd) eqn:Hc.
  - destruct (parse_input_faults cmd [] Hc) as (pl0 & H0 & _).
    rewrite H0 in H. discriminate H.
  - rewrite (parse_input_no_command cmd [] Hc) in H. by injection H as <-.
Qed.

Lemma parse_input_then_run_commands_witness :
  parse_input (lit ";|;") [] = Some (Ok tt, [])
  /\ run_commands parent_env (3, 4)%Z [] shell_start
     = (Returned false, shell_start).
Proof.
  split; [reflexivity|].
  apply (parse_input_then_run_commands (lit ";|;") [] parent_env (3, 4)%Z
           shell_start).
  reflexivity.
Defined.

(** X17.  However long [run] is followed, on whatever input and machine:
    it has not returned and has spawned no process nor touched a
    descriptor; it has faulted in [parse_input], or the allocator has
    aborted in [cleanup], or it is still in its loop. *)
Theorem run_never_returns (m : machine) (fuel : nat) (st : shell) :
  sh_os (snd (run m fuel st)) = sh_os st
  /\ (fst (run m fuel st) = RunGoesOn
      \/ fst (run m fuel st) = RunFault NullDereference
      \/ fst (run m fuel st) = RunInvalidFree).
Proof.
  unfold run. generalize 0 as pass. revert st.
  induction fuel as [|fuel IH]; intros st pass; cbn [run_passes].
  - split; [done|by left].
  - destruct (read_input (display_prompt (sh_io st))) as [input io].
    destruct (has_command input) eqn:Hc.
    + destruct (parse_input_faults input [] Hc) as (pl0 & -> & _).
      split; [done|]. right. by left.
    + rewrite (parse_input_no_command input [] Hc).
      unfold run_commands, cleanup. cbn [run_loop sh_os].
      destruct (free_returns m pass).
      * destruct (IH (mkShell io (sh_os st)) (S pass)) as [H1 H2].
        by split.
      * split; [done|]. right. by right.
Qed.

Lemma prompts_split (out : list ascii) :
  (out ++ list_ascii_of_string "$ ") ++ list_ascii_of_string "Enter a line: "
  = out ++ prompts.
Proof. by rewrite <- app_assoc. Qed.

(** X18.  When the next line typed holds a command (of at most 80
    characters), [run] writes its two prompts, reads the line and faults
    in [parse_input], in the pass that read it: this is what typing
    "quit", or any command, does to the shell. *)
Theorem run_faults_on_command (m : machine) (fuel : nat) (st : shell)
    (line rest : list ascii) :
  good (cin (sh_io st)) = true ->
  pending (cin (sh_io st)) = line ++ newline :: rest ->
  forallb plain_char line = true ->
  length line <= 80 ->
  has_command (line ++ [NUL]) = true ->
  run m (S fuel) st
  = (RunFault NullDereference,
     mkShell (mkStdio (mkIstream rest false false)
                      (cout (sh_io st) ++ prompts))
             (sh_os st)).
Proof.
  intros Hg Hp Hl Hlen Hc. unfold run. cbn [run_passes].
  unfold read_input, getline, display_prompt. cbn [cin cout put].
  rewrite Hg, Hp, (getline_extract_line _ _ _ Hl) by (cbn; lia).
  rewrite (strdup_line _ Hl), prompts_split.
  destruct (parse_input_faults (line ++ [NUL]) [] Hc) as (pl0 & -> & _).
  done.
Qed.

Lemma run_faults_on_command_witness :
  good (mkIstream (typed ["quit"]) false false) = true
  /\ has_command (lit "quit") = true
  /\ run (mkMachine parent_env (fun _ => (3, 4)%Z) (fun _ => true)) 5
         (mkShell (mkStdio (mkIstream (typed ["quit"]) false false) [])
                  shell_start)
     = (RunFault NullDereference,
        mkShell (mkStdio (mkIstream [] false false) ([] ++ prompts))
                shell_start).
Proof.
  split; [reflexivity|]. split; [reflexivity|].
  apply (run_faults_on_command
           (mkMachine parent_env (fun _ => (3, 4)%Z) (fun _ => true)) 4
           (mkShell (mkStdio (mkIstream (typed ["quit"]) false false) [])
                    shell_start)
           (list_ascii_of_string "quit") []);
    [reflexivity|reflexivity|reflexivity|cbn; lia|reflexivity].
Defined.

Lemma read_input_nothing_pending (io : stdio) :
  pending (cin io) = [] ->
  exists e f,
    read_input io
    = ([NUL], mkStdio (mkIstream [] e f)
                      (cout io ++ list_ascii_of_string "Enter a line: ")).
Proof.
  intros Hp. unfold read_input, getline. cbn [cin cout put]. rewrite Hp.
  destruct (good (cin io)); by eexists _, _.
Qed.

(** X19.  At the end of the input the shell does not stop: as long as
    [cleanup] comes back, every pass reads an empty line, runs nothing and
    goes round again, writing its two prompts each time. *)
Theorem run_spins_at_end_of_input (m : machine) (fuel : nat) (st : shell) :
  pending (cin (sh_io st)) = [] ->
  (forall k, free_returns m k = true) ->
  fst (run m fuel st) = RunGoesOn
  /\ cout (sh_io (snd (run m fuel st)))
     = cout (sh_io st) ++ repeat_prompts fuel
  /\ sh_os (snd (run m fuel st)) = sh_os st.
Proof.
  intros Hp Hfree. unfold run. generalize 0 as pass. revert st Hp.
  induction fuel as [|fuel IH]; intros st Hp pass; cbn [run_passes].
  - cbn. by rewrite app_nil_r.
  - destruct (read_input_nothing_pending (display_prompt (sh_io st)) Hp)
      as (e & f & ->).
    rewrite (parse_input_no_command [NUL] []) by reflexivity.
    unfold run_commands, cleanup. cbn [run_loop sh_os]. rewrite Hfree.
    match goal with
    | |- context [run_passes m fuel (S pass) [] ?st1] =>
        destruct (IH st1 eq_refl (S pass)) as (H1 & H2 & H3)
    end.
    split; [done|]. split; [|done].
    rewrite H2. unfold display_prompt. cbn [sh_io cout put repeat_prompts].
    by rewrite prompts_split, <- app_assoc.
Qed.

Lemma run_spins_at_end_of_input_witness :
  pending (cin (mkStdio (mkIstream [] false false) [])) = []
  /\ fst (run (mkMachine parent_env (fun _ => (3, 4)%Z) (fun _ => true)) 3
              (mkShell (mkStdio (mkIstream [] false false) []) shell_start))
     = RunGoesOn
  /\ cout (sh_io (snd (run (mkMachine parent_env (fun _ => (3, 4)%Z)
                                      (fun _ => true)) 3
                 (mkShell (mkStdio (mkIstream [] false false) [])
                          shell_start))))
     = [] ++ repeat_prompts 3
  /\ sh_os (snd (run (mkMachine parent_env (fun _ => (3, 4)%Z)
                                (fun _ => true)) 3
                 (mkShell (mkStdio (mkIstream [] false false) [])
                          shell_start)))
     = shell_start.
Proof.
  split; [reflexivity|].
  apply (run_spins_at_end_of_input
           (mkMachine parent_env (fun _ => (3, 4)%Z) (fun _ => true)) 3
           (mkShell (mkStdio (mkIstream [] false false) []) shell_start));
    [reflexivity|reflexivity].
Defined.

(** X20.  Every pass of the loop of [run_commands] in which [isQuit]
    answers false starts with [fork]: the [pipe(fd)] of the pass comes
    after it, whatever the pipe flags of the stage, so the child and the
    shell each create a pipe of their own. *)
Theorem run_commands_pass_starts_with_fork (env : oracle) (prev_fd : Z * Z)
    (prev : option Process) (p0 : Process) (rest : list Process) (w : world) :
  fst (isQuit (Some p0)) = Ok false ->
  exists tail,
    trace (snd (run_loop env prev_fd prev (p0 :: rest) w))
    = trace w ++ EvFork (fork_ret env (forks w)) :: tail.
Proof.
  intros Hq.
  destruct (run_loop_forks_first env prev_fd prev p0 rest w Hq) as [tail ->].
  by exists tail.
Qed.

Lemma run_commands_pass_starts_with_fork_witness :
  fst (isQuit (Some (stage "b" 1 0))) = Ok false
  /\ exists tail,
       trace (snd (run_loop parent_env (3, 4)%Z (Some (stage "a" 0 1))
                     [stage "b" 1 0; stage "c" 0 0]
                     (mkWorld [Some Tty; Some Tty; Some Tty;
                               Some (PipeRd 0); Some (PipeWr 0)] 1 1
                              [EvFork 100; EvPipe 0 3 4; EvWait])))
       = [EvFork 100; EvPipe 0 3 4; EvWait] ++ EvFork 101 :: tail.
Proof.
  split; [reflexivity|].
  apply (run_commands_pass_starts_with_fork parent_env (3, 4)%Z
           (Some (stage "a" 0 1)) (stage "b" 1 0) [stage "c" 0 0]
           (mkWorld [Some Tty; Some Tty; Some Tty;
                     Some (PipeRd 0); Some (PipeWr 0)] 1 1
                    [EvFork 100; EvPipe 0 3 4; EvWait])).
  reflexivity.
Defined.
